(** * jqomp: the component engine

    A shallow embedding of [component_engine.js]: the [ComponentEngine]
    with its [Component] trees, its central event bus and its action
    dispatch, and the later [Application] variant.

    Objects that the engine mutates in place are carried as values and
    written back where the script mutates them: the registry holds the
    registered components, and each of them holds its subcomponents.  An
    object that would be at two places (registered and also a
    subcomponent of a registered component) is two values here, so what is
    proved of the fields of a component is proved of the registered
    components, by their keys.  A component's identity
    (the [===] of the script) is its [cid]; the identity of a listener or
    of an action callback is a number; what such a function does when it
    is called is observed through the [trace] of the engine state.

    Lifecycle callbacks ([init], [remove]) are given as the list of calls
    they make on the event bus, either through the component ([this]) or
    through the engine they receive as argument. *)

From stdpp Require Import base strings gmap list.
From Stdlib Require Import Ascii ZArith Lia.

Open Scope string_scope.
Open Scope list_scope.

(** ** Property keys *)

(** A plain object ([{}]) finds the members of [Object.prototype] when it
    is read with [obj[k]] and has no own property [k].  The engine reads
    all its dictionaries that way, so a key is a string that names no such
    member. *)

Definition ObjectPrototype : list string :=
  ["constructor"; "__defineGetter__"; "__defineSetter__"; "hasOwnProperty";
   "__lookupGetter__"; "__lookupSetter__"; "isPrototypeOf";
   "propertyIsEnumerable"; "toString"; "valueOf"; "__proto__";
   "toLocaleString"].

Definition inherited (s : string) : bool :=
  existsb (String.eqb s) ObjectPrototype.

Record Key := mkKey {
  key_name : string;
  key_own : Is_true (negb (inherited key_name))
}.

Notation "# s" := (mkKey s I) (at level 1, format "# s").

#[global] Instance Key_eq_dec : EqDecision Key.
Proof.
  refine (fun a b => cast_if (decide (key_name a = key_name b))).
  - destruct a as [a Ha], b as [b Hb]; simpl in *; subst.
    f_equal. apply proof_irrel.
  - by intros ->.
Defined.

Definition to_key (s : string) : option Key :=
  match Is_true_dec (negb (inherited s)) with
  | left H => Some (mkKey s H)
  | right _ => None
  end.

#[global] Instance Key_countable : Countable Key.
Proof.
  refine (inj_countable key_name to_key _).
  intros [s H]. unfold to_key. simpl.
  destruct (Is_true_dec _) as [H'|H']; [|done].
  do 2 f_equal. apply proof_irrel.
Defined.

(** ** Ordered objects

    [for (k in obj)] visits the own keys that are array indices first, in
    ascending order, and then the other keys in the order of their
    creation.  [Obj V] keeps the entries in that order. *)

Definition is_digit (a : ascii) : bool :=
  let n := Ascii.nat_of_ascii a in (48 <=? n)%nat && (n <=? 57)%nat.

Fixpoint digits (s : string) (acc : N) : option N :=
  match s with
  | EmptyString => Some acc
  | String a r =>
      if is_digit a
      then digits r (10 * acc + N.of_nat (Ascii.nat_of_ascii a - 48))%N
      else None
  end.

(** The canonical numeric strings below [2^32 - 1]. *)
Definition array_index (s : string) : option N :=
  match s with
  | EmptyString => None
  | String a r =>
      if (Ascii.eqb a "0"%char) && negb (String.eqb r "") then None
      else match digits s 0 with
           | Some n => if (n <? 4294967295)%N then Some n else None
           | None => None
           end
  end.

Definition Obj (V : Type) : Type := list (Key * V).

Section Obj.
Context {V : Type}.

Fixpoint obj_get (k : Key) (o : Obj V) : option V :=
  match o with
  | [] => None
  | (k', v) :: rest => if decide (k' = k) then Some v else obj_get k rest
  end.

Fixpoint obj_replace (k : Key) (v : V) (o : Obj V) : Obj V :=
  match o with
  | [] => []
  | (k', v') :: rest =>
      if decide (k' = k) then (k', v) :: rest
      else (k', v') :: obj_replace k v rest
  end.

Fixpoint obj_insert_index (n : N) (k : Key) (v : V) (o : Obj V) : Obj V :=
  match o with
  | [] => [(k, v)]
  | (k', v') :: rest =>
      match array_index (key_name k') with
      | Some n' =>
          if (n' <? n)%N then (k', v') :: obj_insert_index n k v rest
          else (k, v) :: o
      | None => (k, v) :: o
      end
  end.

(** [obj[k] = v] *)
Definition obj_set (k : Key) (v : V) (o : Obj V) : Obj V :=
  match obj_get k o with
  | Some _ => obj_replace k v o
  | None =>
      match array_index (key_name k) with
      | Some n => obj_insert_index n k v o
      | None => o ++ [(k, v)]
      end
  end.

(** [delete obj[k]] *)
Fixpoint obj_delete (k : Key) (o : Obj V) : Obj V :=
  match o with
  | [] => []
  | (k', v) :: rest =>
      if decide (k' = k) then rest else (k', v) :: obj_delete k rest
  end.

Definition obj_keys (o : Obj V) : list Key := map fst o.
End Obj.

(** ** Arrays *)

Section Array.
Context {A : Type} `{EqDecision A}.

(** [arr.indexOf(x)] *)
Fixpoint indexOf_from (i : Z) (arr : list A) (x : A) : Z :=
  match arr with
  | [] => (-1)%Z
  | y :: rest => if decide (y = x) then i else indexOf_from (i + 1)%Z rest x
  end.

Definition indexOf (arr : list A) (x : A) : Z := indexOf_from 0 arr x.

(** [arr.splice(start, deleteCount)]: the array that is left.  A
    negative [start] counts from the end. *)
Definition splice (start deleteCount : Z) (arr : list A) : list A :=
  let len := Z.of_nat (length arr) in
  let from := if (start <? 0)%Z then Z.max (len + start) 0
              else Z.min start len in
  let count := Z.min (Z.max deleteCount 0) (len - from) in
  take (Z.to_nat from) arr ++ drop (Z.to_nat (from + count)) arr.
End Array.

(** ** Data *)

Definition Cid := nat.
Definition Listener := nat.
Definition Callback := nat.
Definition Elem := nat.

#[local] Unset Elimination Schemes.

(** The data of an event. *)
Inductive Value :=
| VUndefined
| VNum (n : Z)
| VStr (s : string)
| VObj (fields : list (string * Value)).

(** The external query collaborator: [$(selector)]. *)
Definition Query := string -> list Elem.

Inductive Level := Log | Warn | Error.

Inductive Effect :=
| Guard (c : Cid)
| Init (c : Cid)
| Remove (c : Cid)
| Listen (l : Listener) (data : Value)
| Action (cb : Callback) (element : Elem) (c : Cid)
| Console (level : Level) (msg : string).

Inductive Target := This | App.

Inductive Call :=
| CallAddEventListener (t : Target) (event : Key) (l : Listener)
| CallRemoveEventListener (t : Target) (event : Key) (l : Listener)
| CallDispatchEvent (t : Target) (event : Key) (data : Value).

Definition Script := list Call.

(** What an [actions] object holds under a name: the array that
    [addAction] builds, or what the options gave. *)
Inductive ActionVal :=
| AArr (cbs : list Callback)
| AFun (cb : Callback)
| ANum (n : Z).

Inductive Component := mkComponent {
  cid : Cid;
  name : Key;
  selector : option string;
  guard : bool;
  init : option Script;
  remove : option Script;
  subcomponents : list Component;
  engine : bool;
  enabled : bool;
  parent : option Cid;
  actions : gmap Key ActionVal;
  elements : option (list Elem)
}.

#[local] Set Elimination Schemes.

(** [new Component(name, options)] *)
Definition newComponent (id : Cid) (nm : Key) (sel : option string)
    (g : bool) (i r : option Script) (subs : list Component) : Component :=
  mkComponent id nm sel g i r subs false false None ∅ None.

Definition set_engine (b : bool) (c : Component) : Component :=
  let 'mkComponent id nm sel g i r subs _ en par acts els := c in
  mkComponent id nm sel g i r subs b en par acts els.

Definition set_enabled (b : bool) (c : Component) : Component :=
  let 'mkComponent id nm sel g i r subs eng _ par acts els := c in
  mkComponent id nm sel g i r subs eng b par acts els.

Definition set_parent (p : option Cid) (c : Component) : Component :=
  let 'mkComponent id nm sel g i r subs eng en _ acts els := c in
  mkComponent id nm sel g i r subs eng en p acts els.

Definition set_actions (a : gmap Key ActionVal) (c : Component) : Component :=
  let 'mkComponent id nm sel g i r subs eng en par _ els := c in
  mkComponent id nm sel g i r subs eng en par a els.

Definition set_elements (e : option (list Elem)) (c : Component) : Component :=
  let 'mkComponent id nm sel g i r subs eng en par acts _ := c in
  mkComponent id nm sel g i r subs eng en par acts e.

Definition set_subcomponents (s : list Component) (c : Component) : Component :=
  let 'mkComponent id nm sel g i r _ eng en par acts els := c in
  mkComponent id nm sel g i r s eng en par acts els.

(** The engine, the [component] property of the listeners ([owner]), the
    number of times the action handler was installed on the document, and
    the calls made so far. *)
Record ComponentEngine := mkEngine {
  components : Obj Component;
  eventListeners : gmap Key (list Listener);
  initialized : bool;
  deferredEvents : list (Key * Value);
  owner : gmap Listener Cid;
  handlers : nat;
  trace : list Effect
}.

(** [new ComponentEngine()] *)
Definition newEngine : ComponentEngine := mkEngine [] ∅ false [] ∅ 0 [].

Definition set_components (x : Obj Component) (w : ComponentEngine) :=
  mkEngine x (eventListeners w) (initialized w) (deferredEvents w)
           (owner w) (handlers w) (trace w).

Definition set_eventListeners (x : gmap Key (list Listener)) (w : ComponentEngine) :=
  mkEngine (components w) x (initialized w) (deferredEvents w)
           (owner w) (handlers w) (trace w).

Definition set_initialized (x : bool) (w : ComponentEngine) :=
  mkEngine (components w) (eventListeners w) x (deferredEvents w)
           (owner w) (handlers w) (trace w).

Definition set_deferredEvents (x : list (Key * Value)) (w : ComponentEngine) :=
  mkEngine (components w) (eventListeners w) (initialized w) x
           (owner w) (handlers w) (trace w).

Definition set_owner (x : gmap Listener Cid) (w : ComponentEngine) :=
  mkEngine (components w) (eventListeners w) (initialized w) (deferredEvents w)
           x (handlers w) (trace w).

Definition set_handlers (x : nat) (w : ComponentEngine) :=
  mkEngine (components w) (eventListeners w) (initialized w) (deferredEvents w)
           (owner w) x (trace w).

Definition set_trace (x : list Effect) (w : ComponentEngine) :=
  mkEngine (components w) (eventListeners w) (initialized w) (deferredEvents w)
           (owner w) (handlers w) x.

(** The calls of the trace: [Guard c], [Init c] and [Remove c] are the
    calls of [guard], [init] and [remove] on the component [c];
    [Listen l data] is the call [l(data)] of a listener;
    [Action cb element c] is [cb.apply(element, [c])]. *)

(** ** Computations

    A call changes the engine and returns or throws; what it changed
    before it throws stays changed. *)

Inductive Outcome (A : Type) :=
| Return (a : A)
| Throw (msg : string).
Arguments Return {A} a.
Arguments Throw {A} msg.

Definition M (A : Type) : Type := ComponentEngine -> Outcome A * ComponentEngine.

#[global] Instance M_ret : MRet M := fun A a w => (Return a, w).

#[global] Instance M_bind : MBind M := fun A B f m w =>
  match m w with
  | (Return a, w') => f a w'
  | (Throw msg, w') => (Throw msg, w')
  end.

Definition throw {A} (msg : string) : M A := fun w => (Throw msg, w).
Definition get : M ComponentEngine := fun w => (Return w, w).
Definition modify (f : ComponentEngine -> ComponentEngine) : M unit :=
  fun w => (Return tt, f w).
Definition emit (e : Effect) : M unit :=
  modify (fun w => set_trace (trace w ++ [e]) w).

Definition for_each {A} (f : A -> M unit) : list A -> M unit :=
  fix each (l : list A) : M unit :=
    match l with
    | [] => mret tt
    | x :: rest => f x ;; each rest
    end.

Definition dquote : string := String (ascii_of_nat 34) EmptyString.

(** ** Component.prototype *)

Module Component.

(** [tryToSetElements]: [$(undefined)] is the empty collection. *)
Definition tryToSetElements (jq : Query) (this : Component)
    : Component * bool :=
  let elements := match selector this with
                  | Some s => jq s
                  | None => []
                  end in
  (if (0 <? length elements)%nat then set_elements (Some elements) this
   else this,
   negb (length elements =? 0)%nat).

(** [addAction]: [this.actions[name] || []], then [push]. *)
Definition addAction (name : Key) (callback : Callback) (this : Component)
    : Outcome Component :=
  match actions this !! name with
  | None => Return (set_actions (<[name := AArr [callback]]> (actions this)) this)
  | Some (AArr cbs) =>
      Return (set_actions (<[name := AArr (cbs ++ [callback])]> (actions this)) this)
  | Some (AFun _) => Throw "TypeError: this.actions[name].push is not a function"
  | Some (ANum n) =>
      if (n =? 0)%Z
      then Return (set_actions (<[name := AArr [callback]]> (actions this)) this)
      else Throw "TypeError: this.actions[name].push is not a function"
  end.

(** The number of rounds of [for (var i = 0; i < this.actions.length; i++)]:
    [this.actions.length] is the own property [length] of the [actions]
    object, and [i < x] is false when [x] is not a number. *)
Definition rounds (length_property : option ActionVal) : nat :=
  match length_property with
  | None => 0                  (* undefined: NaN *)
  | Some (ANum n) => Z.to_nat n
  | Some (AArr []) => 0        (* the empty string: 0 *)
  | Some (AArr (_ :: _)) => 0  (* the text of the functions: NaN *)
  | Some (AFun _) => 0         (* the text of the function: NaN *)
  end.

Definition apply (callback : Callback) (element : Elem) (this : Component)
    : M unit :=
  emit (Action callback element (cid this)).

Fixpoint executeAction (name : Key) (element : Elem) (this : Component)
    : M unit :=
  match actions this !! name with
  | Some (AArr cbs) =>
      for_each (fun i => match cbs !! i with
                         | Some cb => apply cb element this
                         | None => throw "TypeError: this.actions[name][i] is undefined"
                         end)
               (seq 0 (rounds (actions this !! #"length")))
  | Some (AFun cb) => apply cb element this
  | Some (ANum _) => throw "TypeError: this.actions[name].apply is not a function"
  | None => mret tt
  end ;;
  for_each (executeAction name element) (subcomponents this).

End Component.

(** ** ComponentEngine.prototype *)

(** What the engine's methods take for a component: its name, the
    component, or [undefined]. *)
Inductive Ref :=
| ByName (s : Key)
| ByObject (c : Component)
| Undefined.

Definition ref_of (c : option (Key * Component)) : Ref :=
  match c with
  | Some (_, c) => ByObject c
  | None => Undefined
  end.

Module ComponentEngine.

(** *** The event bus *)

Definition addEventListener (event : Key) (listener : Listener) : M unit :=
  modify (fun w =>
    let listeners := default [] (eventListeners w !! event) in
    set_eventListeners
      (<[event := listeners ++ [listener]]> (eventListeners w)) w).

Definition removeEventListener (event : Key) (listener : Listener) : M unit :=
  modify (fun w =>
    match eventListeners w !! event with
    | None => w
    | Some listeners =>
        set_eventListeners
          (<[event := splice (indexOf listeners listener) 1 listeners]>
             (eventListeners w)) w
    end).

Definition dispatchEvent (event : Key) (data : Value) : M unit :=
  w ← get;
  if initialized w then
    match eventListeners w !! event with
    | Some listeners => for_each (fun l => emit (Listen l data)) listeners
    | None => mret tt
    end
  else
    modify (fun w => set_deferredEvents (deferredEvents w ++ [(event, data)]) w).

(** *** The callbacks of a component

    [Component.prototype.addEventListener], [removeEventListener] and
    [dispatchEvent] go through [this.engine]; the first one tags the
    listener with the component before. *)

Definition with_engine (this_engine : bool) (m : M unit) : M unit :=
  if this_engine then m else throw "TypeError: this.engine is undefined".

Definition call (this : Cid) (this_engine : bool) (c : Call) : M unit :=
  match c with
  | CallAddEventListener This event l =>
      modify (fun w => set_owner (<[l := this]> (owner w)) w) ;;
      with_engine this_engine (addEventListener event l)
  | CallAddEventListener App event l => addEventListener event l
  | CallRemoveEventListener This event l =>
      with_engine this_engine (removeEventListener event l)
  | CallRemoveEventListener App event l => removeEventListener event l
  | CallDispatchEvent This event data =>
      with_engine this_engine (dispatchEvent event data)
  | CallDispatchEvent App event data => dispatchEvent event data
  end.

Definition run (this : Component) (s : Script) : M unit :=
  for_each (call (cid this) (engine this)) s.

(** [component.init(this)], with the default of the prototype *)
Definition call_init (component : Component) : M unit :=
  emit (Init (cid component)) ;;
  match init component with
  | Some s => run component s
  | None =>
      emit (Console Warn ("Function 'init' is not specified for the '"
                          +:+ key_name (name component) +:+ "' component."))
  end.

(** [component.remove(this)], with the default of the prototype *)
Definition call_remove (component : Component) : M unit :=
  emit (Remove (cid component)) ;;
  match remove component with
  | Some s => run component s
  | None =>
      emit (Console Warn ("Function 'remove' is not specified for the '"
                          +:+ key_name (name component) +:+ "' component."))
  end.

(** [component.guard(this)] *)
Definition call_guard (component : Component) : M bool :=
  emit (Guard (cid component)) ;; mret (guard component).

(** *** Activation *)

(** [_initComponent(component, scopeStr)].  [new_parent] is the
    assignment [subcomponent.parent = component] that the caller makes
    just before the call, when the call is the recursive one. *)
Fixpoint _initComponent (new_parent : option Cid) (component : Component)
    (scopeStr : option string) : M Component :=
  let 'mkComponent id nm sel g i r subs eng en par acts els := component in
  let par := match new_parent with Some p => Some p | None => par end in
  let scopeStr := match scopeStr with
                  | Some s => if String.eqb s "" then key_name nm else s
                  | None => key_name nm
                  end in
  let component := mkComponent id nm sel g i r subs true en par acts els in
  call_init component ;;
  let component := set_enabled true component in
  emit (Console Log ("Component '" +:+ scopeStr +:+ "' initialized.")) ;;
  subs ← (fix each (l : list Component) : M (list Component) :=
            match l with
            | [] => mret []
            | subcomponent :: rest =>
                ok ← call_guard subcomponent;
                subcomponent ←
                  (if ok : bool then
                     _initComponent (Some id) subcomponent
                       (Some (scopeStr +:+ "." +:+ key_name (name subcomponent)))
                   else mret subcomponent);
                rest ← each rest;
                mret (subcomponent :: rest)
            end) subs;
  mret (set_subcomponents subs component).

(** *** The registry *)

(** [getComponent], with the key the component is stored under *)
Definition getComponent (component : Ref) : M (option (Key * Component)) :=
  match component with
  | ByName s => w ← get; mret (pair s <$> obj_get s (components w))
  | ByObject c =>
      w ← get; mret (pair (name c) <$> obj_get (name c) (components w))
  | Undefined => throw "TypeError: component is undefined"
  end.

(** The component stored under [k] was changed into [c]. *)
Definition store (k : Key) (c : Component) : M unit :=
  modify (fun w => set_components (obj_replace k c (components w)) w).

Definition addComponent (component : Component) : M unit :=
  w ← get;
  match obj_get (name component) (components w) with
  | Some _ =>
      emit (Console Error ("Component with name " +:+ dquote
                           +:+ key_name (name component) +:+ dquote
                           +:+ " already exists."))
  | None =>
      component ←
        (if initialized w then
           ok ← call_guard component;
           if ok : bool then _initComponent None component None
           else mret component
         else mret component);
      modify (fun w =>
        set_components (obj_set (name component) component (components w)) w)
  end.

Definition enableComponent (component : Ref) : M unit :=
  component ← getComponent component;
  match component with
  | None => throw "TypeError: component is undefined"
  | Some (k, component) =>
      if enabled component then mret tt
      else component ← _initComponent None component None;
           store k component
  end.

(** The loop of [disableComponent] over one array of listeners:
    [for (var i = 0; i < listeners.length; i++)] with a [splice(i, 1)]
    where the listener is one of the component.  No round makes the
    array longer, so [length listeners] rounds are enough. *)
Fixpoint purge_from (rounds i : nat) (mine : Listener -> bool)
    (listeners : list Listener) : list Listener :=
  match rounds with
  | 0 => listeners
  | S rounds =>
      match listeners !! i with
      | Some l =>
          purge_from rounds (S i) mine
            (if mine l then splice (Z.of_nat i) 1 listeners else listeners)
      | None => listeners
      end
  end.

Definition purge (mine : Listener -> bool) (listeners : list Listener)
    : list Listener :=
  purge_from (length listeners) 0 mine listeners.

(** [listeners[i].component === component] *)
Definition owned_by (component : Component) (w : ComponentEngine)
    (l : Listener) : bool :=
  bool_decide (owner w !! l = Some (cid component)).

Definition disableComponent (component : Ref) : M unit :=
  component ← getComponent component;
  match component with
  | None => throw "TypeError: component is undefined"
  | Some (k, component) =>
      if enabled component then
        call_remove component ;;
        store k (set_enabled false component) ;;
        modify (fun w =>
          set_eventListeners
            (purge (owned_by component w) <$> eventListeners w) w)
      else mret tt
  end.

(** [String(component)], the key of [delete this.components[component]] *)
Definition object_Object : Key := #"[object Object]".

Definition removeComponent (component : Ref) : M unit :=
  component ← getComponent component;
  disableComponent (ref_of component) ;;
  match component with
  | None => throw "TypeError: component is undefined"
  | Some (k, _) =>
      w ← get;
      match obj_get k (components w) with
      | Some c => store k (set_engine false c)
      | None => mret tt
      end ;;
      modify (fun w =>
        set_components (obj_delete object_Object (components w)) w)
  end.

(** *** Initialization *)

Definition truthy (s : option string) : bool :=
  match s with
  | Some s => negb (String.eqb s "")
  | None => false
  end.

(** One round of the first loop of [init]. *)
Definition init_component (jq : Query) (c : Key) : M unit :=
  w ← get;
  match obj_get c (components w) with
  | None => mret tt
  | Some component =>
      let '(component, found) :=
        if truthy (selector component)
        then Component.tryToSetElements jq component
        else (component, true) in
      store c component ;;
      if found then
        ok ← call_guard component;
        if ok : bool then
          component ← _initComponent None component None;
          store c component
        else mret tt
      else mret tt
  end.

(** [actionHandler], with the action read from the element *)
Definition actionHandler (action : Key) (element : Elem) : M unit :=
  w ← get;
  for_each (fun '(_, c) => Component.executeAction action element c)
           (components w).

Definition init (jq : Query) : M unit :=
  w ← get;
  for_each (init_component jq) (obj_keys (components w)) ;;
  modify (set_initialized true) ;;
  w ← get;
  for_each (fun '(event, data) => dispatchEvent event data) (deferredEvents w) ;;
  modify (set_deferredEvents []) ;;
  modify (fun w => set_handlers (S (handlers w)) w).

End ComponentEngine.

(** ** ObservableMixin

    The events of the Application variant: every object that has the
    mixin keeps its own callbacks in [_eventCallbacks], and [trigger]
    goes up the chain of the [parent] references. *)

Module ObservableMixin.

(** [_initEvents()] *)
Definition _initEvents : gmap Key (list Callback) := ∅.

(** [on(event, callback)] *)
Definition on (event : Key) (callback : Callback)
    (_eventCallbacks : gmap Key (list Callback))
    : gmap Key (list Callback) :=
  <[event := default [] (_eventCallbacks !! event) ++ [callback]]>
    _eventCallbacks.

(** [off(event, callback)] *)
Definition off (event : Key) (callback : Callback)
    (_eventCallbacks : gmap Key (list Callback))
    : gmap Key (list Callback) :=
  match _eventCallbacks !! event with
  | Some callbacks =>
      let index := indexOf callbacks callback in
      if (-1 <? index)%Z
      then <[event := splice index 1 callbacks]> _eventCallbacks
      else _eventCallbacks
  | None => _eventCallbacks
  end.

(** [trigger(event, data)] on an object, given its callbacks and those
    of its parent, of the parent of its parent, and so on: the calls
    [callback(data)] that are made, as [(callback, data)]. *)
Fixpoint trigger (event : Key) (data : Value)
    (chain : list (gmap Key (list Callback))) : list (Callback * Value) :=
  match chain with
  | [] => []
  | _eventCallbacks :: parents =>
      map (fun callback => (callback, data))
          (default [] (_eventCallbacks !! event))
      ++ trigger event data parents
  end.

End ObservableMixin.

(** ** The Application variant

    The later engine of the file: components without subcomponents, kept
    in arrays, prepared from a selector that they must have. *)

Module Application.

Inductive Effect :=
| Init (cb : Callback)
| Console (level : Level) (msg : string).

Module Component.

Record t := mk {
  name : string;
  selector : option string;
  guard : bool;
  init : option Callback;
  element : option (list Elem);
  engine : bool;
  parent : bool
}.

Definition no_selector (this : t) : string :=
  "A selector is not provided for the " +:+ name this +:+ " component.".

(** [_prepare(app)]: [!this.selector] holds for [undefined] and for
    the empty string. *)
Definition _prepare (jq : Query) (this : t) : Outcome t :=
  match selector this with
  | Some s =>
      if String.eqb s "" then Throw (no_selector this)
      else Return (mk (name this) (selector this) (guard this)
                      (init this) (Some (jq s)) true true)
  | None => Throw (no_selector this)
  end.

(** [_reset()] *)
Definition _reset (this : t) : t :=
  mk (name this) (selector this) (guard this) (init this)
     None false false.

(** [_shouldInitialize()]: [this.guard() && this.element.length] *)
Definition _shouldInitialize (this : t) : bool :=
  guard this && match element this with
                | Some els => (0 <? length els)%nat
                | None => false
                end.

(** [component.init(app)], with the default of the constructor *)
Definition call_init (this : t) : list Effect :=
  match init this with
  | Some cb => [Init cb]
  | None => [Console Warn ("An init method is not provided for the "
                           +:+ name this +:+ " component.")]
  end.

End Component.

Record Application := mkApplication {
  components : list Component.t;
  uninitComponents : list Component.t;
  inactiveComponents : list Component.t;
  initialized : bool;
  trace : list Effect
}.

(** [new Application()] *)
Definition newApplication : Application := mkApplication [] [] [] false [].

(** The loop of [init] from the component after [seen]: the components
    of [seen] were prepared and are in [uninitComponents] as they are
    now. *)
Fixpoint init_from (jq : Query) (seen todo : list Component.t)
    (app : Application) : Outcome unit * Application :=
  match todo with
  | [] =>
      (Return tt,
       mkApplication (components app) [] (inactiveComponents app)
                     (initialized app) (trace app))
  | component :: rest =>
      match Component._prepare jq component with
      | Throw msg =>
          (Throw msg,
           mkApplication (components app) (seen ++ todo)
                         (inactiveComponents app) (initialized app)
                         (trace app))
      | Return component =>
          if Component._shouldInitialize component then
            init_from jq (seen ++ [component]) rest
              (mkApplication (components app ++ [component])
                 (uninitComponents app) (inactiveComponents app)
                 (initialized app)
                 (trace app ++ Component.call_init component
                    ++ [Console Log ("Component "
                                     +:+ Component.name component
                                     +:+ " initialized.")]))
          else
            let component := Component._reset component in
            init_from jq (seen ++ [component]) rest
              (mkApplication (components app) (uninitComponents app)
                 (inactiveComponents app ++ [component])
                 (initialized app) (trace app))
      end
  end.

Definition init (jq : Query) (app : Application)
    : Outcome unit * Application :=
  init_from jq [] (uninitComponents app) app.

Definition addComponent (jq : Query) (component : Component.t)
    (app : Application) : Outcome unit * Application :=
  if initialized app then
    match Component._prepare jq component with
    | Throw msg => (Throw msg, app)
    | Return component =>
        if Component._shouldInitialize component then
          (Return tt,
           mkApplication (components app ++ [component])
             (uninitComponents app) (inactiveComponents app)
             (initialized app) (trace app ++ Component.call_init component))
        else (Return tt, app)
    end
  else
    (Return tt,
     mkApplication (components app) (uninitComponents app ++ [component])
       (inactiveComponents app) (initialized app) (trace app)).

(** [reset()]: the components of both arrays are reset and wait for
    the next [init]; those that were waiting are forgotten. *)
Definition reset (app : Application) : Application :=
  mkApplication []
    (map Component._reset (components app ++ inactiveComponents app))
    [] false (trace app).

(** The loop of [getComponent]: its condition is [components.length],
    so it goes on until a component has the name or [components[iComp]]
    is undefined. *)
Fixpoint getComponent_from (name : string) (todo : list Component.t)
    : Outcome (option Component.t) :=
  match todo with
  | [] => Throw "TypeError: components[iComp] is undefined"
  | component :: rest =>
      if String.eqb (Component.name component) name
      then Return (Some component)
      else getComponent_from name rest
  end.

(** [getComponent(name)] *)
Definition getComponent (name : string) (app : Application)
    : Outcome (option Component.t) :=
  match components app with
  | [] => Return None
  | _ :: _ => getComponent_from name (components app)
  end.

End Application.

(** ** Runs *)

Definition exec {A} (m : M A) (w : ComponentEngine) : ComponentEngine :=
  snd (m w).

Definition outcome {A} (m : M A) (w : ComponentEngine) : Outcome A :=
  fst (m w).

(** ** Scenarios *)

(** An engine with two listeners for the event [e]. *)
Definition two_listeners : ComponentEngine :=
  exec (ComponentEngine.addEventListener #"e" 1 ;;
        ComponentEngine.addEventListener #"e" 2) newEngine.

(** No element of the document matches any selector. *)
Definition empty_document : Query := fun _ => [].

(** [Foo] has a selector and [Bar] has none. *)
Definition Foo : Component :=
  newComponent 1 #"Foo" (Some ".nope") true (Some []) (Some []) [].

Definition Bar : Component :=
  newComponent 2 #"Bar" None true (Some []) (Some []) [].

(** The document of an element [7] of class [foo]. *)
Definition one_foo : Query :=
  fun s => if String.eqb s ".foo" then [7] else [].

Definition Baz : Component :=
  newComponent 3 #"Baz" (Some ".foo") true (Some []) (Some []) [].

(** [A] with the subcomponent [B], each with one callback for the action
    [save], as [addAction] registers them. *)
Definition B_save : Component :=
  set_actions {[ #"save" := AArr [20] ]}
    (newComponent 2 #"B" None true (Some []) (Some []) []).

Definition A_save : Component :=
  set_actions {[ #"save" := AArr [10] ]}
    (newComponent 1 #"A" None true (Some []) (Some []) [B_save]).

(** [C] listens twice to the event [e] from its [init], [D] once. *)
Definition C_twice : Component :=
  newComponent 1 #"C" None true
    (Some [CallAddEventListener This #"e" 100;
           CallAddEventListener This #"e" 101])
    (Some []) [].

Definition D_once : Component :=
  newComponent 2 #"D" None true
    (Some [CallAddEventListener This #"e" 200]) (Some []) [].



(** What the specification asks of [executeAction]: the callbacks of the
    component under [name], in the order of their registration, then the
    subcomponents in the order of their declaration. *)
Fixpoint broadcast (name : Key) (element : Elem) (c : Component)
    : list Effect :=
  match actions c !! name with
  | Some (AArr cbs) => map (fun cb => Action cb element (cid c)) cbs
  | Some (AFun cb) => [Action cb element (cid c)]
  | _ => []
  end ++ flat_map (broadcast name element) (subcomponents c).

(** ** Sequences of calls *)

Inductive Op :=
| OpInit (jq : Query)
| OpAddComponent (c : Component)
| OpEnableComponent (r : Ref)
| OpDisableComponent (r : Ref)
| OpRemoveComponent (r : Ref)
| OpAddEventListener (event : Key) (l : Listener)
| OpRemoveEventListener (event : Key) (l : Listener)
| OpDispatchEvent (event : Key) (data : Value)
| OpAction (action : Key) (element : Elem).

Definition step (op : Op) : M unit :=
  match op with
  | OpInit jq => ComponentEngine.init jq
  | OpAddComponent c => ComponentEngine.addComponent c
  | OpEnableComponent r => ComponentEngine.enableComponent r
  | OpDisableComponent r => ComponentEngine.disableComponent r
  | OpRemoveComponent r => ComponentEngine.removeComponent r
  | OpAddEventListener event l => ComponentEngine.addEventListener event l
  | OpRemoveEventListener event l => ComponentEngine.removeEventListener event l
  | OpDispatchEvent event data => ComponentEngine.dispatchEvent event data
  | OpAction action element => ComponentEngine.actionHandler action element
  end.

(** The engine after the calls, each one made on what the one before
    left, whether it returned or threw. *)
Definition steps (ops : list Op) (w : ComponentEngine) : ComponentEngine :=
  fold_left (fun w op => exec (step op) w) ops w.

(** What the specification asks of the stored elements of a component:
    they are set if and only if the component is enabled and either has no
    selector or has one that matches an element. *)
Definition boundElement_iff (jq : Query) (c : Component) : Prop :=
  is_Some (elements c) <->
  (enabled c = true /\
   (selector c = None \/ exists s, selector c = Some s /\ jq s ≠ [])).

(** ** The Application variant: what a component comes to *)

Module ApplicationSpec.
Import Application.

Definition declares_selector (c : Component.t) : bool :=
  match Component.selector c with
  | Some s => negb (String.eqb s "")
  | None => false
  end.

(** The guard returns true and the selector matches an element. *)
Definition activates (jq : Query) (c : Component.t) : bool :=
  Component.guard c &&
  match Component.selector c with
  | Some s => (0 <? length (jq s))%nat
  | None => false
  end.

Definition prepared (jq : Query) (c : Component.t) : Component.t :=
  Component.mk (Component.name c) (Component.selector c) (Component.guard c)
    (Component.init c)
    (match Component.selector c with Some s => Some (jq s) | None => None end)
    true true.

(** The component after its round of the loop of [init]. *)
Definition processed (jq : Query) (c : Component.t) : Component.t :=
  if activates jq c then prepared jq c else Component._reset c.

Definition initialization (c : Component.t) : list Effect :=
  Component.call_init c
  ++ [Console Log ("Component " +:+ Component.name c +:+ " initialized.")].

(** The application after a pass of [init] over [todo] that left
    [uninit] in [uninitComponents]. *)
Definition after_pass (jq : Query) (todo uninit : list Component.t)
    (app : Application) : Application :=
  mkApplication
    (components app ++ map (prepared jq) (List.filter (activates jq) todo))
    uninit
    (inactiveComponents app
     ++ map Component._reset
          (List.filter (fun c => negb (activates jq c)) todo))
    (initialized app)
    (trace app ++ flat_map initialization (List.filter (activates jq) todo)).

(** Two components to register: one without selector, and one whose
    guard refuses. *)
Definition no_sel : Component.t :=
  Component.mk "Menu" None true (Some 1) None false false.

Definition refused : Component.t :=
  Component.mk "Tabs" (Some ".tabs") false (Some 2) None false false.

Definition waiting : Application :=
  mkApplication [] [refused; no_sel; refused] [] false [].

Definition running : Application := mkApplication [] [] [] true [].
End ApplicationSpec.

(** ** Activation, as a function

    What [_initComponent] makes of a component, and the calls of guards
    and of [init] callbacks that it makes, in their order. *)

Fixpoint activated (new_parent : option Cid) (c : Component) : Component :=
  let 'mkComponent id nm sel g i r subs eng en par acts els := c in
  mkComponent id nm sel g i r
    (map (fun k => if guard k then activated (Some id) k else k) subs)
    true true
    (match new_parent with Some p => Some p | None => par end)
    acts els.

Fixpoint activation_order (c : Component) : list Effect :=
  let 'mkComponent id nm sel g i r subs eng en par acts els := c in
  Init id
  :: flat_map (fun k => Guard (cid k)
                        :: if guard k then activation_order k else [])
       subs.

Definition is_lifecycle (e : Effect) : bool :=
  match e with
  | Guard _ | Init _ | Remove _ => true
  | _ => false
  end.

(** The calls of guards and of lifecycle callbacks of a trace. *)
Definition lifecycle (t : list Effect) : list Effect :=
  List.filter is_lifecycle t.

(** What a call may do to the engine while it activates components:
    it adds [life] to the calls of guards and lifecycle callbacks, and it
    adds events to the queue only when the engine is not initialized. *)
Record evolves (life : list Effect) (w w' : ComponentEngine) : Prop := {
  ev_life : lifecycle (trace w') = lifecycle (trace w) ++ life;
  ev_initialized : initialized w' = initialized w;
  ev_components : components w' = components w;
  ev_handlers : handlers w' = handlers w;
  ev_deferred : deferredEvents w `prefix_of` deferredEvents w';
  ev_deferred_same :
    initialized w = true -> deferredEvents w' = deferredEvents w
}.

(** [m] returns [a] from every engine, which [evolves] by [life]. *)
Definition returns {A} (m : M A) (a : A) (life : list Effect) : Prop :=
  forall w, exists w', m w = (Return a, w') /\ evolves life w w'.

(** ** The queue of deferred events *)

(** The calls that the dispatch of an event makes on an initialized
    engine: the listeners of the event, in the order of the array. *)
Definition delivery (w : ComponentEngine) (ev : Key * Value) : list Effect :=
  map (fun l => Listen l ev.2) (default [] (eventListeners w !! ev.1)).

(** What the first loop of [init] may do to the queue: it adds events at
    the end, and only when the engine is not initialized. *)
Record queues (w w' : ComponentEngine) : Prop := {
  q_initialized : initialized w' = initialized w;
  q_deferred : deferredEvents w `prefix_of` deferredEvents w';
  q_deferred_same :
    initialized w = true -> deferredEvents w' = deferredEvents w
}.

(** [ready] is dispatched before [init], and heard by a listener that is
    added after the dispatch. *)
Definition ready_then_init : M unit :=
  ComponentEngine.dispatchEvent #"ready" (VObj [("x", VNum 1)]) ;;
  ComponentEngine.addEventListener #"ready" 5 ;;
  ComponentEngine.init empty_document.

(** ** The stored elements *)

(** The selector of a component and the elements stored in it. *)
Definition view (c : Component) : option string * option (list Elem) :=
  (selector c, elements c).

(** The elements stored in a component after [init] on the document
    [jq]: what its selector matches, when it has one that matches an
    element, and what was stored before otherwise. *)
Definition resolved (jq : Query) (v : option string * option (list Elem))
    : option string * option (list Elem) :=
  match v.1 with
  | Some s =>
      if negb (String.eqb s "") && (0 <? length (jq s))%nat
      then (v.1, Some (jq s))
      else v
  | None => v
  end.

(** What a round of the first loop of [init] makes of a component. *)
Definition init_result (jq : Query) (c : Component) : Component :=
  let '(c1, found) :=
    if ComponentEngine.truthy (selector c)
    then Component.tryToSetElements jq c
    else (c, true) in
  if found && guard c1 then activated None c1 else c1.

Definition is_init (op : Op) : bool :=
  match op with
  | OpInit _ => true
  | _ => false
  end.

(** The registry is an object: no key is there twice. *)
Definition distinct_keys (w : ComponentEngine) : Prop :=
  NoDup (obj_keys (components w)).

(** [m] leaves the registry as it is, whether it returns or throws. *)
Definition frames {A} (m : M A) : Prop :=
  forall w, components (m w).2 = components w.

(** The registry [o'] has the keys of [o], with the same selector and
    the same stored elements under each key. *)
Definition same_views (o o' : Obj Component) : Prop :=
  obj_keys o' = obj_keys o
  /\ forall k, view <$> obj_get k o' = view <$> obj_get k o.

(** The stored elements [v.2] are what a call of [init] of [ops] found
    for the selector [v.1], and at least one, or what a component that
    [ops] registers was constructed with. *)
Definition from_init_or_constructor (ops : list Op)
    (v : option string * option (list Elem)) : Prop :=
  forall els,
    v.2 = Some els ->
    (exists s jq,
        v.1 = Some s /\ s ≠ "" /\ In (OpInit jq) ops
        /\ els = jq s /\ els ≠ [])
    \/ (exists c0, In (OpAddComponent c0) ops /\ elements c0 = Some els).

(** ** What the loops come to *)

(** The loop of [disableComponent] over an array, as a function of the
    array: after a listener of the component is removed, the next one
    takes its place and is stepped over. *)
Fixpoint purged (mine : Listener -> bool) (listeners : list Listener)
    : list Listener :=
  match listeners with
  | [] => []
  | l :: rest =>
      if mine l then
        match rest with
        | [] => []
        | next :: rest' => next :: purged mine rest'
        end
      else l :: purged mine rest
  end.

(** No two listeners of the component are next to each other. *)
Fixpoint apart (mine : Listener -> bool) (listeners : list Listener) : bool :=
  match listeners with
  | [] => true
  | l :: rest =>
      match rest with
      | [] => true
      | next :: _ => negb (mine l && mine next)
      end && apart mine rest
  end.

(** The calls that [executeAction] makes: the function that a component
    has under the name, then those of its subcomponents. *)
Fixpoint fired (name : Key) (element : Elem) (c : Component) : list Effect :=
  let 'mkComponent id nm sel g i r subs eng en par acts els := c in
  match acts !! name with
  | Some (AFun cb) => [Action cb element id]
  | _ => []
  end ++ flat_map (fired name element) subs.

(** No [actions] object of the tree has a number under [length] or under
    the name. *)
Fixpoint plain (name : Key) (c : Component) : bool :=
  let 'mkComponent id nm sel g i r subs eng en par acts els := c in
  match acts !! #"length" with Some (ANum _) => false | _ => true end
  && match acts !! name with Some (ANum _) => false | _ => true end
  && forallb (plain name) subs.

(** [m] installs no action handler, whether it returns or throws. *)
Definition installs_nothing {A} (m : M A) : Prop :=
  forall w, handlers (m w).2 = handlers w.

(** ** Sequences of calls on an application *)

Inductive AppOp :=
| AppInit (jq : Query)
| AppAddComponent (jq : Query) (c : Application.Component.t)
| AppReset.

Definition app_step (op : AppOp) (app : Application.Application)
    : Application.Application :=
  match op with
  | AppInit jq => (Application.init jq app).2
  | AppAddComponent jq c => (Application.addComponent jq c app).2
  | AppReset => Application.reset app
  end.

Definition app_steps (ops : list AppOp) (app : Application.Application)
    : Application.Application :=
  fold_left (fun app op => app_step op app) ops app.

(** * Properties *)

(** ** Arrays *)

(** A number is in no concrete list of other numbers. *)
Ltac absent :=
  rewrite ?not_elem_of_cons; repeat split;
  first [apply not_elem_of_nil | discriminate | lia].

Section ArrayFacts.
Context {A : Type} `{EqDecision A}.

Lemma indexOf_from_absent (arr : list A) (x : A) (i : Z) :
  x ∉ arr -> indexOf_from i arr x = (-1)%Z.
Proof.
  revert i. induction arr as [|y arr IH]; intros i Hx; simpl; [done|].
  apply not_elem_of_cons in Hx as [Hne Hx].
  destruct (decide (y = x)); [congruence|]. by apply IH.
Qed.

Lemma indexOf_absent (arr : list A) (x : A) :
  x ∉ arr -> indexOf arr x = (-1)%Z.
Proof. apply indexOf_from_absent. Qed.

Lemma splice_minus_one (arr : list A) :
  arr ≠ [] -> splice (-1) 1 arr = removelast arr.
Proof.
  intros Hne. unfold splice.
  assert (0 < length arr)%nat as Hlen by (destruct arr; [done|simpl; lia]).
  replace (Z.max (Z.of_nat (length arr) + -1) 0) with (Z.of_nat (length arr) - 1)%Z by lia.
  replace (-1 <? 0)%Z with true by done.
  replace (Z.min (Z.max 1 0) (Z.of_nat (length arr) - (Z.of_nat (length arr) - 1)))
    with 1%Z by lia.
  replace (Z.to_nat (Z.of_nat (length arr) - 1 + 1)) with (length arr) by lia.
  replace (Z.to_nat (Z.of_nat (length arr) - 1)) with (Nat.pred (length arr)) by lia.
  rewrite drop_all, app_nil_r. symmetry. apply removelast_firstn_len.
Qed.

Lemma removelast_shorter (arr : list A) :
  arr ≠ [] -> length (removelast arr) < length arr.
Proof.
  intros Hne. rewrite removelast_firstn_len, length_take.
  destruct arr; [done|simpl; lia].
Qed.
End ArrayFacts.

(** ** The event bus *)

(** C10.  When the array of listeners of an event [E] is not empty and
    [f] is not in it, [removeEventListener(E, f)] removes the last
    listener of the array: [indexOf] is [-1] and [splice(-1, 1)] deletes
    the last element.  When [E] has no array of listeners the call changes
    nothing; a call with an [f] that is in no array changes nothing only
    if there is no array for [E] or an empty one. *)
Theorem removeEventListener_absent_removes_last
    (w : ComponentEngine) (E : Key) (f : Listener) :
  (forall listeners,
      eventListeners w !! E = Some listeners ->
      listeners ≠ [] ->
      f ∉ listeners ->
      ComponentEngine.removeEventListener E f w
      = (Return tt,
         set_eventListeners (<[E := removelast listeners]> (eventListeners w)) w)
      /\ eventListeners (exec (ComponentEngine.removeEventListener E f) w) !! E
         = Some (removelast listeners)
      /\ length (removelast listeners) < length listeners
      /\ exec (ComponentEngine.removeEventListener E f) w ≠ w)
  /\ (eventListeners w !! E = None ->
      ComponentEngine.removeEventListener E f w = (Return tt, w))
  /\ (forall listeners,
      eventListeners w !! E = Some listeners ->
      f ∉ listeners ->
      exec (ComponentEngine.removeEventListener E f) w = w ->
      listeners = []).
Proof.
  assert (forall listeners,
      eventListeners w !! E = Some listeners ->
      listeners ≠ [] ->
      f ∉ listeners ->
      ComponentEngine.removeEventListener E f w
      = (Return tt,
         set_eventListeners (<[E := removelast listeners]> (eventListeners w)) w))
    as Hstep.
  { intros ls Hls Hne Hf.
    unfold ComponentEngine.removeEventListener, modify. rewrite Hls.
    by rewrite (indexOf_absent _ _ Hf), (splice_minus_one _ Hne). }
  assert (forall listeners,
      eventListeners w !! E = Some listeners ->
      listeners ≠ [] ->
      f ∉ listeners ->
      exec (ComponentEngine.removeEventListener E f) w ≠ w) as Hchanged.
  { intros ls Hls Hne Hf Heq. unfold exec in Heq.
    rewrite (Hstep ls Hls Hne Hf) in Heq. simpl in Heq.
    apply (f_equal (fun w => eventListeners w !! E)) in Heq. simpl in Heq.
    rewrite lookup_insert_eq, Hls in Heq.
    pose proof (removelast_shorter ls Hne) as Hlt.
    injection Heq as Heq. rewrite Heq in Hlt. lia. }
  split; [|split].
  - intros ls Hls Hne Hf. split; [by apply Hstep|].
    split; [|split].
    + unfold exec. rewrite (Hstep ls Hls Hne Hf). simpl.
      apply lookup_insert_eq.
    + by apply removelast_shorter.
    + by apply (Hchanged ls).
  - intros Hnone. unfold ComponentEngine.removeEventListener, modify.
    by rewrite Hnone.
  - intros ls Hls Hf Heq. destruct (decide (ls = [])) as [|Hne]; [done|].
    by destruct (Hchanged ls Hls Hne Hf).
Qed.

Lemma removeEventListener_absent_witness :
  eventListeners two_listeners !! #"e" = Some [1; 2]
  /\ (3 ∉ [1; 2])
  /\ eventListeners
       (exec (ComponentEngine.removeEventListener #"e" 3) two_listeners) !! #"e"
     = Some [1].
Proof.
  split; [reflexivity|]. split; [absent|].
  destruct (removeEventListener_absent_removes_last two_listeners #"e" 3)
    as [H _].
  destruct (H [1; 2]) as (_ & H2 & _);
    [reflexivity | discriminate | absent | exact H2].
Defined.

(** ** The registry *)

(** C8.  Registering a component under the name of a registered one is
    rejected: the error is reported on the console and nothing else
    changes, so the mapping is the same and [getComponent] of the name
    still returns the first component. *)
Theorem addComponent_duplicate_rejected
    (w : ComponentEngine) (c first : Component) :
  obj_get (name c) (components w) = Some first ->
  ComponentEngine.addComponent c w
  = (Return tt,
     set_trace
       (trace w ++ [Console Error
                      ("Component with name " +:+ dquote
                       +:+ key_name (name c) +:+ dquote
                       +:+ " already exists.")]) w)
  /\ components (exec (ComponentEngine.addComponent c) w) = components w
  /\ outcome (ComponentEngine.getComponent (ByName (name c)))
             (exec (ComponentEngine.addComponent c) w)
     = Return (Some (name c, first)).
Proof.
  intros Hfirst.
  assert (ComponentEngine.addComponent c w
          = (Return tt,
             set_trace
               (trace w ++ [Console Error
                              ("Component with name " +:+ dquote
                               +:+ key_name (name c) +:+ dquote
                               +:+ " already exists.")]) w)) as Hrun.
  { unfold ComponentEngine.addComponent, mbind, M_bind, get. simpl.
    by rewrite Hfirst. }
  split; [exact Hrun|]. unfold exec, outcome. rewrite Hrun. simpl.
  split; [done|].
  unfold ComponentEngine.getComponent, mbind, M_bind, get, mret, M_ret. simpl.
  by rewrite Hfirst.
Qed.

Lemma addComponent_duplicate_witness :
  let w := exec (ComponentEngine.addComponent Foo) newEngine in
  let second := newComponent 9 #"Foo" None true None None [] in
  obj_get (name second) (components w) = Some Foo
  /\ components (exec (ComponentEngine.addComponent second) w) = components w
  /\ outcome (ComponentEngine.getComponent (ByName #"Foo"))
             (exec (ComponentEngine.addComponent second) w)
     = Return (Some (#"Foo", Foo)).
Proof.
  intros w second. split; [reflexivity|].
  destruct (addComponent_duplicate_rejected w second Foo) as (_ & H1 & H2);
    [reflexivity|].
  split; [exact H1 | exact H2].
Defined.

(** ** Evaluations *)

(** C1.  [A] and its subcomponent [B] have one callback each for the
    action [save], registered by [addAction].  The specification asks
    for the call of the callback of [A] and then of the one of [B];
    [executeAction] calls none, also when the action is fired through the
    handler of an initialized engine: the loop over the callbacks is
    bounded by [this.actions.length], which [addAction] never sets. *)
Theorem executeAction_calls_no_registered_callback :
  Component.addAction #"save" 20
    (newComponent 2 #"B" None true (Some []) (Some []) [])
  = Return B_save
  /\ Component.addAction #"save" 10
       (newComponent 1 #"A" None true (Some []) (Some []) [B_save])
     = Return A_save
  /\ (forall element,
        broadcast #"save" element A_save
        = [Action 10 element 1; Action 20 element 2])
  /\ (forall element w,
        Component.executeAction #"save" element A_save w = (Return tt, w))
  /\ (forall element,
        let w := exec (ComponentEngine.addComponent A_save ;;
                       ComponentEngine.init empty_document) newEngine in
        ComponentEngine.actionHandler #"save" element w = (Return tt, w)).
Proof.
  split; [vm_compute; reflexivity|]. split; [vm_compute; reflexivity|].
  split; [intros; vm_compute; reflexivity|].
  split; [intros; vm_compute; reflexivity|].
  intros element w. vm_compute. reflexivity.
Qed.

(** C3.  [Bar] is registered and initialized.  [removeComponent] of its
    name returns, disables it and clears its engine, but the component
    stays in the mapping: the key of the [delete] is the text of the
    object and not its name, so [getComponent] still returns it. *)
Theorem removeComponent_keeps_component :
  let w := exec (ComponentEngine.addComponent Bar ;;
                 ComponentEngine.init empty_document) newEngine in
  let w' := exec (ComponentEngine.removeComponent (ByName #"Bar")) w in
  outcome (ComponentEngine.removeComponent (ByName #"Bar")) w = Return tt
  /\ outcome (ComponentEngine.getComponent (ByName #"Bar")) w'
     = Return (Some (#"Bar", Bar))
  /\ obj_keys (components w') = [ #"Bar" ].
Proof. repeat split. Qed.

(** C4.  [C] has two listeners for the event [e], next to each other in
    the array, and [D] has one.  [disableComponent] of [C] removes the
    first listener of [C] and steps over the second, which is called by
    the next dispatch of [e]. *)
Theorem disableComponent_keeps_adjacent_listener :
  let w := exec (ComponentEngine.addComponent C_twice ;;
                 ComponentEngine.addComponent D_once ;;
                 ComponentEngine.init empty_document) newEngine in
  let w' := exec (ComponentEngine.disableComponent (ByName #"C")) w in
  eventListeners w !! #"e" = Some [100; 101; 200]
  /\ owner w !! 100 = Some 1 /\ owner w !! 101 = Some 1
  /\ owner w !! 200 = Some 2
  /\ outcome (ComponentEngine.disableComponent (ByName #"C")) w = Return tt
  /\ eventListeners w' !! #"e" = Some [101; 200]
  /\ trace (exec (ComponentEngine.dispatchEvent #"e" VUndefined) w')
     = trace w' ++ [Listen 101 VUndefined; Listen 200 VUndefined].
Proof. repeat split. Qed.

(** C6.  The engine is initialized and no element matches the selector
    of [Foo].  [addComponent] activates [Foo] all the same: it asks the
    guard and never resolves the selector.  [init] leaves the same
    component inactive. *)
Theorem addComponent_ignores_selector :
  let w := exec (ComponentEngine.init empty_document) newEngine in
  let w' := exec (ComponentEngine.addComponent Foo) w in
  initialized w = true
  /\ selector Foo = Some ".nope" /\ empty_document ".nope" = []
  /\ outcome (ComponentEngine.getComponent (ByName #"Foo")) w'
     = Return (Some (#"Foo", set_enabled true (set_engine true Foo)))
  /\ outcome (ComponentEngine.getComponent (ByName #"Foo"))
       (exec (ComponentEngine.addComponent Foo ;;
              ComponentEngine.init empty_document) newEngine)
     = Return (Some (#"Foo", Foo)).
Proof. repeat split. Qed.

(** C2, as the specification states it, fails in both directions: after
    [init], [Bar] is enabled and has no selector, and nothing is stored;
    after [init] and [disableComponent], [Baz] is disabled and still has
    the elements that [init] found. *)
Lemma boundElement_iff_fails :
  (let w := steps [OpAddComponent Bar; OpInit empty_document] newEngine in
   exists c, obj_get #"Bar" (components w) = Some c
             /\ ~ boundElement_iff empty_document c)
  /\ (let w := steps [OpAddComponent Baz; OpInit one_foo;
                      OpDisableComponent (ByName #"Baz")] newEngine in
      exists c, obj_get #"Baz" (components w) = Some c
                /\ ~ boundElement_iff one_foo c).
Proof.
  split.
  - eexists. split; [reflexivity|]. intros [_ H].
    destruct H as [x Hx]; [split; [reflexivity | by left]|]. discriminate Hx.
  - eexists. split; [reflexivity|]. intros [H _].
    destruct H as [Hen _]; [by eexists|]. discriminate Hen.
Qed.


(** ** The Application variant *)

Section ApplicationFacts.
Import Application ApplicationSpec.

Lemma prepare_declared (jq : Query) (c : Component.t) :
  declares_selector c = true ->
  Component._prepare jq c = Return (prepared jq c).
Proof.
  unfold declares_selector, Component._prepare, prepared.
  destruct (Component.selector c) as [s|]; [|done].
  by destruct (String.eqb s "").
Qed.

Lemma prepare_undeclared (jq : Query) (c : Component.t) :
  declares_selector c = false ->
  Component._prepare jq c = Throw (Component.no_selector c).
Proof.
  unfold declares_selector, Component._prepare.
  destruct (Component.selector c) as [s|]; [|done].
  by destruct (String.eqb s "").
Qed.

Lemma shouldInitialize_prepared (jq : Query) (c : Component.t) :
  declares_selector c = true ->
  Component._shouldInitialize (prepared jq c) = activates jq c.
Proof.
  unfold declares_selector, Component._shouldInitialize, activates, prepared.
  simpl. by destruct (Component.selector c).
Qed.

Lemma after_pass_nil (jq : Query) (uninit : list Component.t)
    (app : Application) :
  after_pass jq [] uninit app
  = mkApplication (components app) uninit (inactiveComponents app)
      (initialized app) (trace app).
Proof. unfold after_pass. simpl. by rewrite !app_nil_r. Qed.

(** The loop over components that all declare a selector returns. *)
Lemma init_from_declared (jq : Query) (todo seen : list Component.t)
    (app : Application) :
  Forall (fun c => declares_selector c = true) todo ->
  init_from jq seen todo app = (Return tt, after_pass jq todo [] app).
Proof.
  revert seen app.
  induction todo as [|c todo IH]; intros seen app Hall; simpl.
  - by rewrite after_pass_nil.
  - apply Forall_cons in Hall as [Hc Hall].
    rewrite (prepare_declared jq c Hc), (shouldInitialize_prepared jq c Hc).
    destruct (activates jq c) eqn:Hact.
    + rewrite (IH _ _ Hall). unfold after_pass. simpl. rewrite Hact. simpl.
      f_equal. unfold initialization at 2. simpl.
      f_equal; rewrite <- ?app_assoc; done.
    + rewrite (IH _ _ Hall). unfold after_pass. simpl. rewrite Hact. simpl.
      f_equal. f_equal. by rewrite <- app_assoc.
Qed.

(** The loop stops at the first component without selector. *)
Lemma init_from_undeclared (jq : Query)
    (before : list Component.t) (c : Component.t)
    (after seen : list Component.t) (app : Application) :
  Forall (fun c => declares_selector c = true) before ->
  declares_selector c = false ->
  init_from jq seen (before ++ c :: after) app
  = (Throw (Component.no_selector c),
     after_pass jq before
       (seen ++ map (processed jq) before ++ c :: after) app).
Proof.
  revert seen app.
  induction before as [|b before IH]; intros seen app Hall Hc; simpl.
  - rewrite (prepare_undeclared jq c Hc). by rewrite after_pass_nil.
  - apply Forall_cons in Hall as [Hb Hall].
    rewrite (prepare_declared jq b Hb), (shouldInitialize_prepared jq b Hb).
    unfold processed at 1.
    destruct (activates jq b) eqn:Hact.
    + rewrite (IH _ _ Hall Hc). unfold after_pass. simpl. rewrite Hact. simpl.
      f_equal. unfold initialization at 2. simpl.
      f_equal; rewrite <- ?app_assoc; done.
    + rewrite (IH _ _ Hall Hc). unfold after_pass. simpl. rewrite Hact. simpl.
      f_equal. f_equal; rewrite <- ?app_assoc; done.
Qed.

(** C9.  In the Application variant the preparation of a component that
    declares no selector throws: [init] processes the components before
    it, aborts there and leaves it and the ones after it in
    [uninitComponents]; [addComponent] on an initialized application
    throws and changes nothing.  When every component declares a
    selector, [init] returns; a component whose guard returns false or
    whose selector matches nothing is reset and put among the inactive
    ones, and [addComponent] returns and leaves the application as it
    was. *)
Theorem missing_selector_is_fatal (jq : Query) (app : Application) :
  (forall before c after,
      uninitComponents app = before ++ c :: after ->
      Forall (fun c => declares_selector c = true) before ->
      declares_selector c = false ->
      init jq app
      = (Throw (Component.no_selector c),
         after_pass jq before
           (map (processed jq) before ++ c :: after) app))
  /\ (Forall (fun c => declares_selector c = true) (uninitComponents app) ->
      init jq app
      = (Return tt, after_pass jq (uninitComponents app) [] app))
  /\ (forall c,
      initialized app = true ->
      declares_selector c = false ->
      addComponent jq c app = (Throw (Component.no_selector c), app))
  /\ (forall c,
      initialized app = true ->
      declares_selector c = true ->
      activates jq c = false ->
      addComponent jq c app = (Return tt, app)).
Proof.
  split; [|split; [|split]].
  - intros before c after Huninit Hall Hc. unfold init. rewrite Huninit.
    by rewrite (init_from_undeclared jq before c after [] app Hall Hc).
  - intros Hall. unfold init. by apply init_from_declared.
  - intros c Hinit Hc. unfold addComponent.
    by rewrite Hinit, (prepare_undeclared jq c Hc).
  - intros c Hinit Hc Hact. unfold addComponent.
    by rewrite Hinit, (prepare_declared jq c Hc),
      (shouldInitialize_prepared jq c Hc), Hact.
Qed.

Lemma missing_selector_witness :
  uninitComponents waiting = [refused] ++ no_sel :: [refused]
  /\ Forall (fun c => declares_selector c = true) [refused]
  /\ declares_selector no_sel = false
  /\ init empty_document waiting
     = (Throw "A selector is not provided for the Menu component.",
        mkApplication [] [refused; no_sel; refused] [refused] false [])
  /\ initialized running = true
  /\ addComponent empty_document no_sel running
     = (Throw "A selector is not provided for the Menu component.", running)
  /\ declares_selector refused = true
  /\ activates empty_document refused = false
  /\ addComponent empty_document refused running = (Return tt, running).
Proof.
  destruct (missing_selector_is_fatal empty_document waiting)
    as (Hfatal & _ & _ & _).
  destruct (missing_selector_is_fatal empty_document running)
    as (_ & _ & Hadd & Hsilent).
  split; [reflexivity|]. split; [by repeat constructor|].
  split; [reflexivity|].
  split; [apply (Hfatal [refused] no_sel [refused]);
          [reflexivity | by repeat constructor | reflexivity]|].
  split; [reflexivity|].
  split; [apply (Hadd no_sel); reflexivity|].
  split; [reflexivity|]. split; [reflexivity|].
  apply (Hsilent refused); reflexivity.
Defined.
End ApplicationFacts.

(** ** Computations *)

Lemma bind_return {A B} (m : M A) (f : A -> M B) (w w' : ComponentEngine) (a : A) :
  m w = (Return a, w') -> (m ≫= f) w = f a w'.
Proof. intros H. unfold mbind, M_bind. by rewrite H. Qed.

Lemma bind_throw {A B} (m : M A) (f : A -> M B) (w w' : ComponentEngine) msg :
  m w = (Throw msg, w') -> (m ≫= f) w = (Throw msg, w').
Proof. intros H. unfold mbind, M_bind. by rewrite H. Qed.

Lemma set_trace_same (w : ComponentEngine) : set_trace (trace w) w = w.
Proof. by destruct w. Qed.

Lemma lifecycle_app (t u : list Effect) :
  lifecycle (t ++ u) = lifecycle t ++ lifecycle u.
Proof. apply List.filter_app. Qed.

Lemma evolves_refl (w : ComponentEngine) : evolves [] w w.
Proof. split; try done. by rewrite app_nil_r. Qed.

Lemma evolves_trans (l1 l2 : list Effect) (w1 w2 w3 : ComponentEngine) :
  evolves l1 w1 w2 -> evolves l2 w2 w3 -> evolves (l1 ++ l2) w1 w3.
Proof.
  intros [H1 H2 H3 H4 H5 H6] [K1 K2 K3 K4 K5 K6]. split.
  - by rewrite K1, H1, app_assoc.
  - congruence.
  - congruence.
  - congruence.
  - by etrans.
  - intros Hi. rewrite K6, H6; [done..|congruence].
Qed.

Lemma evolves_emit (e : Effect) (w : ComponentEngine) :
  evolves (lifecycle [e]) w (set_trace (trace w ++ [e]) w).
Proof. split; try done. simpl. apply lifecycle_app. Qed.

Lemma returns_ret {A} (a : A) : returns (mret a) a [].
Proof. intros w. exists w. split; [done|apply evolves_refl]. Qed.

Lemma returns_bind {A B} (m : M A) (f : A -> M B) (a : A) (b : B)
    (l1 l2 : list Effect) :
  returns m a l1 -> returns (f a) b l2 -> returns (m ≫= f) b (l1 ++ l2).
Proof.
  intros Hm Hf w. destruct (Hm w) as (w1 & E1 & H1).
  destruct (Hf w1) as (w2 & E2 & H2). exists w2.
  split; [by rewrite (bind_return _ _ _ _ _ E1)|by eapply evolves_trans].
Qed.

Lemma returns_emit (e : Effect) : returns (emit e) tt (lifecycle [e]).
Proof. intros w. eexists. split; [done|apply evolves_emit]. Qed.

Lemma returns_for_each {A} (f : A -> M unit) (l : list A) :
  Forall (fun x => returns (f x) tt []) l -> returns (for_each f l) tt [].
Proof.
  induction 1 as [|x l Hx _ IH]; simpl; [apply returns_ret|].
  change [] with (@nil Effect ++ []). by eapply returns_bind.
Qed.

(** The event bus, while components are activated. *)

Lemma returns_addEventListener (event : Key) (l : Listener) :
  returns (ComponentEngine.addEventListener event l) tt [].
Proof.
  intros w. eexists. split; [done|]. split; try done. by rewrite app_nil_r.
Qed.

Lemma returns_removeEventListener (event : Key) (l : Listener) :
  returns (ComponentEngine.removeEventListener event l) tt [].
Proof.
  intros w. eexists. split; [done|].
  unfold ComponentEngine.removeEventListener.
  destruct (eventListeners w !! event); [|apply evolves_refl].
  split; try done. by rewrite app_nil_r.
Qed.

Lemma returns_dispatchEvent (event : Key) (data : Value) :
  returns (ComponentEngine.dispatchEvent event data) tt [].
Proof.
  intros w. unfold ComponentEngine.dispatchEvent.
  change ((get ≫= ?f) w) with (f w w). cbv beta.
  destruct (initialized w) eqn:Hinit.
  - destruct (eventListeners w !! event) as [ls|]; [|apply returns_ret].
    apply returns_for_each, Forall_forall. intros l _.
    apply (returns_emit (Listen l data)).
  - eexists. split; [done|]. split; try done.
    + by rewrite app_nil_r.
    + by apply prefix_app_r.
    + simpl. congruence.
Qed.

Lemma returns_call (this : Cid) (c : Call) :
  returns (ComponentEngine.call this true c) tt [].
Proof.
  destruct c as [[|] e l|[|] e l|[|] e d]; simpl;
    try apply returns_addEventListener;
    try apply returns_removeEventListener;
    try apply returns_dispatchEvent.
  change [] with (@nil Effect ++ []).
  eapply returns_bind; [|apply returns_addEventListener].
  intros w. eexists. split; [done|]. split; try done. by rewrite app_nil_r.
Qed.

Lemma returns_run (this : Component) (s : Script) :
  engine this = true -> returns (ComponentEngine.run this s) tt [].
Proof.
  intros Heng. unfold ComponentEngine.run. rewrite Heng.
  apply returns_for_each, Forall_forall. intros c _. apply returns_call.
Qed.

Lemma returns_call_init (this : Component) :
  engine this = true ->
  returns (ComponentEngine.call_init this) tt [Init (cid this)].
Proof.
  intros Heng. unfold ComponentEngine.call_init.
  change [Init (cid this)] with (lifecycle [Init (cid this)] ++ []).
  eapply returns_bind; [apply returns_emit|].
  destruct (init this); [by apply returns_run|].
  apply (returns_emit (Console _ _)).
Qed.

Lemma returns_call_guard (this : Component) :
  returns (ComponentEngine.call_guard this) (guard this) [Guard (cid this)].
Proof.
  unfold ComponentEngine.call_guard.
  change [Guard (cid this)] with (lifecycle [Guard (cid this)] ++ []).
  eapply returns_bind; [apply returns_emit|apply returns_ret].
Qed.

(** ** Activation *)

Lemma Component_tree_ind (P : Component -> Prop) :
  (forall id nm sel g i r subs eng en par acts els,
      Forall P subs ->
      P (mkComponent id nm sel g i r subs eng en par acts els)) ->
  forall c, P c.
Proof.
  intros H. fix IH 1. intros [id nm sel g i r subs eng en par acts els].
  apply H.
  refine ((fix all (l : list Component) : Forall P l :=
             match l with
             | [] => List.Forall_nil P
             | k :: rest => @List.Forall_cons _ P k rest (IH k) (all rest)
             end) subs).
Qed.

Lemma returns_eq {A} (m : M A) (a a' : A) (l l' : list Effect) :
  returns m a l -> a = a' -> l = l' -> returns m a' l'.
Proof. by intros H <- <-. Qed.

(** [_initComponent] returns, whatever the engine and the component: it
    gives the activated component and makes the calls of
    [activation_order]. *)
Lemma returns_initComponent (c : Component) :
  forall new_parent scopeStr,
    returns (ComponentEngine._initComponent new_parent c scopeStr)
            (activated new_parent c) (activation_order c).
Proof.
  induction c as [id nm sel g i r subs eng en par acts els IH]
    using Component_tree_ind.
  intros new_parent scopeStr. simpl.
  set (scope := match scopeStr with
                | Some s => if String.eqb s "" then key_name nm else s
                | None => key_name nm
                end).
  set (par' := match new_parent with Some p => Some p | None => par end).
  eapply returns_eq;
    [eapply returns_bind; [by apply returns_call_init|];
     eapply returns_bind; [apply (returns_emit (Console _ _))|];
     eapply returns_bind; [|apply returns_ret]|..].
  - instantiate (1 := flat_map (fun k => Guard (cid k)
                          :: if guard k then activation_order k else []) subs).
    instantiate (1 := map (fun k => if guard k then activated (Some id) k
                                    else k) subs).
    clear -IH. induction IH as [|k subs Hk _ IHsubs]; [apply returns_ret|].
    simpl. pose proof (returns_call_guard k) as Hg.
    destruct (guard k) eqn:E.
    + eapply returns_eq;
        [eapply returns_bind; [exact Hg|];
         eapply returns_bind; [apply Hk|];
         eapply returns_bind; [apply IHsubs|apply returns_ret]|..];
        [done|simpl; by rewrite app_nil_r].
    + eapply returns_eq;
        [eapply returns_bind; [exact Hg|];
         eapply returns_bind; [apply returns_ret|];
         eapply returns_bind; [apply IHsubs|apply returns_ret]|..];
        [done|simpl; by rewrite app_nil_r].
  - done.
  - simpl. by rewrite app_nil_r.
Qed.




(** ** Deferred events *)

Lemma queues_refl (w : ComponentEngine) : queues w w.
Proof. by split. Qed.

Lemma queues_trans (w1 w2 w3 : ComponentEngine) :
  queues w1 w2 -> queues w2 w3 -> queues w1 w3.
Proof.
  intros [H1 H2 H3] [K1 K2 K3]. split.
  - congruence.
  - by etrans.
  - intros Hi. rewrite K3, H3; [done..|congruence].
Qed.

Lemma evolves_queues (life : list Effect) (w w' : ComponentEngine) :
  evolves life w w' -> queues w w'.
Proof. intros [_ H1 _ _ H2 H3]. by split. Qed.

Lemma store_queues (k : Key) (c : Component) (w : ComponentEngine) :
  exists w', ComponentEngine.store k c w = (Return tt, w') /\ queues w w'.
Proof. eexists. split; [done|by split]. Qed.

(** A round of the first loop of [init] returns. *)
Lemma init_component_queues (jq : Query) (k : Key) (w : ComponentEngine) :
  exists w', ComponentEngine.init_component jq k w = (Return tt, w')
             /\ queues w w'.
Proof.
  unfold ComponentEngine.init_component.
  change ((get ≫= ?f) w) with (f w w). cbv beta.
  destruct (obj_get k (components w)) as [c|];
    [|exists w; split; [done|apply queues_refl]].
  destruct (if ComponentEngine.truthy (selector c)
            then Component.tryToSetElements jq c else (c, true))
    as [c1 found].
  destruct (store_queues k c1 w) as (w1 & E1 & Q1).
  rewrite (bind_return _ _ _ _ _ E1).
  destruct found; [|by exists w1].
  destruct (returns_call_guard c1 w1) as (w2 & E2 & Q2%evolves_queues).
  rewrite (bind_return _ _ _ _ _ E2).
  destruct (guard c1);
    [|exists w2; split; [done|by eapply queues_trans]].
  destruct (returns_initComponent c1 None None w2)
    as (w3 & E3 & Q3%evolves_queues).
  rewrite (bind_return _ _ _ _ _ E3).
  destruct (store_queues k (activated None c1) w3) as (w4 & E4 & Q4).
  exists w4. split; [done|].
  eapply queues_trans; [|exact Q4]. eapply queues_trans; [|exact Q3].
  by eapply queues_trans.
Qed.

Lemma init_pass_queues (jq : Query) (keys : list Key) (w : ComponentEngine) :
  exists w', for_each (ComponentEngine.init_component jq) keys w
             = (Return tt, w')
             /\ queues w w'.
Proof.
  revert w. induction keys as [|k keys IH]; intros w; simpl.
  - exists w. split; [done|apply queues_refl].
  - destruct (init_component_queues jq k w) as (w1 & E1 & Q1).
    rewrite (bind_return _ _ _ _ _ E1).
    destruct (IH w1) as (w2 & E2 & Q2). exists w2.
    split; [done|by eapply queues_trans].
Qed.

Lemma for_each_emit {A} (f : A -> Effect) (l : list A) (w : ComponentEngine) :
  for_each (fun x => emit (f x)) l w
  = (Return tt, set_trace (trace w ++ map f l) w).
Proof.
  revert w. induction l as [|x l IH]; intros w; simpl.
  - by rewrite app_nil_r, set_trace_same.
  - unfold mbind, M_bind, emit, modify at 1. rewrite IH. simpl.
    by rewrite <- app_assoc.
Qed.

(** On an initialized engine, [dispatchEvent] calls the listeners of the
    event and changes nothing else. *)
Lemma dispatchEvent_initialized (event : Key) (data : Value)
    (w : ComponentEngine) :
  initialized w = true ->
  ComponentEngine.dispatchEvent event data w
  = (Return tt, set_trace (trace w ++ delivery w (event, data)) w).
Proof.
  intros Hinit. unfold ComponentEngine.dispatchEvent, delivery.
  change ((get ≫= ?f) w) with (f w w). cbv beta. rewrite Hinit. simpl.
  destruct (eventListeners w !! event) as [ls|]; simpl.
  - apply for_each_emit.
  - by rewrite app_nil_r, set_trace_same.
Qed.

(** The second loop of [init]: every event of the queue is dispatched
    once, in the order of the queue. *)
Lemma drain_queue (evs : list (Key * Value)) (w : ComponentEngine) :
  initialized w = true ->
  for_each (fun '(event, data) => ComponentEngine.dispatchEvent event data)
           evs w
  = (Return tt, set_trace (trace w ++ flat_map (delivery w) evs) w).
Proof.
  revert w. induction evs as [|[e d] evs IH]; intros w Hinit; simpl.
  - by rewrite app_nil_r, set_trace_same.
  - rewrite (bind_return _ _ _ _ _ (dispatchEvent_initialized e d w Hinit)).
    rewrite IH by done. simpl. by rewrite <- app_assoc.
Qed.

(** C5.  While the engine is not initialized, [dispatchEvent] adds the
    event at the end of [deferredEvents] and calls no listener.  [init]
    returns; its first loop leaves [initialized] as it was and only adds
    to the end of the queue; then [initialized] is set and every event of
    the queue is dispatched once, in the order of the queue, to the
    listeners that its event has at that time; then the queue is emptied.
    After [init] no dispatch adds to the queue.  An event [ready]
    dispatched before [init] is heard once, with its data, by a listener
    that was added before [init]. *)
Theorem deferred_events_drained_by_init (jq : Query) (w : ComponentEngine) :
  let w1 := exec (for_each (ComponentEngine.init_component jq)
                           (obj_keys (components w))) w in
  (forall event data,
      initialized w = false ->
      ComponentEngine.dispatchEvent event data w
      = (Return tt,
         set_deferredEvents (deferredEvents w ++ [(event, data)]) w))
  /\ ComponentEngine.init jq w
     = (Return tt,
        set_handlers (S (handlers w1))
          (set_deferredEvents []
             (set_trace (trace w1 ++ flat_map (delivery w1) (deferredEvents w1))
                (set_initialized true w1))))
  /\ initialized w1 = initialized w
  /\ deferredEvents w `prefix_of` deferredEvents w1
  /\ (initialized w = true -> deferredEvents w1 = deferredEvents w)
  /\ (forall event data,
        deferredEvents
          (exec (ComponentEngine.dispatchEvent event data)
                (exec (ComponentEngine.init jq) w)) = [])
  /\ trace (exec ready_then_init newEngine)
     = [Listen 5 (VObj [("x", VNum 1)])].
Proof.
  intros w1.
  destruct (init_pass_queues jq (obj_keys (components w)) w)
    as (w1' & Epass & [Q1 Q2 Q3]).
  assert (w1 = w1') as -> by (unfold w1, exec; by rewrite Epass).
  assert (ComponentEngine.init jq w
          = (Return tt,
             set_handlers (S (handlers w1'))
               (set_deferredEvents []
                  (set_trace
                     (trace w1' ++ flat_map (delivery w1') (deferredEvents w1'))
                     (set_initialized true w1'))))) as Hinit.
  { unfold ComponentEngine.init.
    change ((get ≫= ?f) w) with (f w w). cbv beta.
    rewrite (bind_return _ _ _ _ _ Epass).
    change ((modify ?g ≫= ?f) w1') with (f tt (g w1')). cbv beta.
    change ((get ≫= ?f) ?x) with (f x x). cbv beta.
    rewrite (bind_return _ _ _ _ _
               (drain_queue (deferredEvents w1') (set_initialized true w1') eq_refl)).
    done. }
  split; [|split; [exact Hinit|]].
  - intros event data Hno. unfold ComponentEngine.dispatchEvent.
    change ((get ≫= ?f) w) with (f w w). cbv beta. by rewrite Hno.
  - split; [exact Q1|]. split; [exact Q2|]. split; [exact Q3|].
    split; [|reflexivity].
    intros event data. unfold exec at 2. rewrite Hinit. simpl.
    unfold exec. by rewrite dispatchEvent_initialized.
Qed.

Lemma deferred_events_witness :
  initialized newEngine = false
  /\ ComponentEngine.dispatchEvent #"ready" VUndefined newEngine
     = (Return tt, set_deferredEvents [(#"ready", VUndefined)] newEngine).
Proof.
  split; [reflexivity|].
  destruct (deferred_events_drained_by_init empty_document newEngine)
    as (H & _).
  apply (H #"ready" VUndefined). reflexivity.
Defined.

(** ** The stored elements *)

(** *** What leaves the registry alone *)

Lemma frames_ret {A} (a : A) : frames (mret a).
Proof. done. Qed.

Lemma frames_throw {A} (msg : string) : frames (@throw A msg).
Proof. done. Qed.

Lemma frames_bind {A B} (m : M A) (f : A -> M B) :
  frames m -> (forall a, frames (f a)) -> frames (m ≫= f).
Proof.
  intros Hm Hf w. unfold mbind, M_bind. specialize (Hm w).
  destruct (m w) as [[a|msg] w1]; simpl in *; [|done].
  by rewrite Hf.
Qed.

Lemma frames_emit (e : Effect) : frames (emit e).
Proof. done. Qed.

Lemma frames_for_each {A} (f : A -> M unit) (l : list A) :
  (forall x, frames (f x)) -> frames (for_each f l).
Proof.
  intros Hf. induction l as [|x l IH]; simpl; [apply frames_ret|].
  by apply frames_bind.
Qed.

Lemma frames_addEventListener (event : Key) (l : Listener) :
  frames (ComponentEngine.addEventListener event l).
Proof. done. Qed.

Lemma frames_removeEventListener (event : Key) (l : Listener) :
  frames (ComponentEngine.removeEventListener event l).
Proof.
  intros w. unfold ComponentEngine.removeEventListener, modify. simpl.
  by destruct (eventListeners w !! event).
Qed.

Lemma frames_dispatchEvent (event : Key) (data : Value) :
  frames (ComponentEngine.dispatchEvent event data).
Proof.
  intros w. unfold ComponentEngine.dispatchEvent.
  change ((get ≫= ?f) w) with (f w w). cbv beta.
  destruct (initialized w); [|done].
  destruct (eventListeners w !! event) as [ls|]; [|done].
  apply frames_for_each. intros x. apply frames_emit.
Qed.

Lemma frames_with_engine (this_engine : bool) (m : M unit) :
  frames m -> frames (ComponentEngine.with_engine this_engine m).
Proof. destruct this_engine; [done|intros _; apply frames_throw]. Qed.

Lemma frames_call (this : Cid) (this_engine : bool) (c : Call) :
  frames (ComponentEngine.call this this_engine c).
Proof.
  destruct c as [[|] e l|[|] e l|[|] e d]; simpl.
  - apply frames_bind; [done|]. intros _.
    apply frames_with_engine, frames_addEventListener.
  - apply frames_addEventListener.
  - apply frames_with_engine, frames_removeEventListener.
  - apply frames_removeEventListener.
  - apply frames_with_engine, frames_dispatchEvent.
  - apply frames_dispatchEvent.
Qed.

Lemma frames_run (this : Component) (s : Script) :
  frames (ComponentEngine.run this s).
Proof. apply frames_for_each. intros c. apply frames_call. Qed.

Lemma frames_call_remove (this : Component) :
  frames (ComponentEngine.call_remove this).
Proof.
  apply frames_bind; [apply frames_emit|]. intros _.
  destruct (remove this); [apply frames_run|apply frames_emit].
Qed.

Lemma frames_executeAction (name : Key) (element : Elem) (c : Component) :
  frames (Component.executeAction name element c).
Proof.
  induction c as [id nm sel g i r subs eng en par acts els IH]
    using Component_tree_ind.
  simpl. apply frames_bind.
  - destruct (acts !! name) as [[cbs|cb|n]|];
      [|apply frames_emit|apply frames_throw|apply frames_ret].
    apply frames_for_each. intros j.
    destruct (cbs !! j); [apply frames_emit|apply frames_throw].
  - intros _. induction IH as [|k subs Hk _ IHsubs]; simpl;
      [apply frames_ret|].
    apply frames_bind; [exact Hk|]. by intros _.
Qed.

Lemma frames_actionHandler (action : Key) (element : Elem) :
  frames (ComponentEngine.actionHandler action element).
Proof.
  intros w. unfold ComponentEngine.actionHandler.
  change ((get ≫= ?f) w) with (f w w). cbv beta.
  apply frames_for_each. intros [k c]. apply frames_executeAction.
Qed.

(** *** Objects *)

Section Obj_facts.
Context {V : Type}.
Implicit Types (o : Obj V) (k : Key) (v : V).

Lemma obj_get_None k o : obj_get k o = None <-> k ∉ obj_keys o.
Proof.
  induction o as [|[k' v'] o IH]; simpl.
  - split; [intros _; apply not_elem_of_nil|done].
  - rewrite not_elem_of_cons. destruct (decide (k' = k)) as [->|Hne].
    + split; [done|]. by intros [? _].
    + rewrite IH. split; [by split|by intros [_ ?]].
Qed.

Lemma obj_keys_replace k v o : obj_keys (obj_replace k v o) = obj_keys o.
Proof.
  induction o as [|[k' v'] o IH]; simpl; [done|].
  destruct (decide (k' = k)); simpl; [done|by rewrite IH].
Qed.

Lemma obj_get_replace k k' v o :
  obj_get k' (obj_replace k v o)
  = if decide (k = k') then (fun _ => v) <$> obj_get k o
    else obj_get k' o.
Proof.
  induction o as [|[k1 v1] o IH]; simpl; [by destruct (decide (k = k'))|].
  destruct (decide (k1 = k)) as [->|Hne]; simpl.
  - destruct (decide (k = k')); [done|]. done.
  - destruct (decide (k1 = k')) as [->|Hne'].
    + destruct (decide (k = k')); [congruence|done].
    + exact IH.
Qed.

Lemma obj_replace_replace k v v' o :
  obj_replace k v' (obj_replace k v o) = obj_replace k v' o.
Proof.
  induction o as [|[k1 v1] o IH]; simpl; [done|].
  destruct (decide (k1 = k)) as [->|Hne]; simpl.
  - by destruct (decide (k = k)).
  - destruct (decide (k1 = k)); [done|]. by rewrite IH.
Qed.

Lemma obj_keys_insert_index n k v o :
  obj_keys (obj_insert_index n k v o) ≡ₚ k :: obj_keys o.
Proof.
  induction o as [|[k' v'] o IH]; simpl; [done|].
  destruct (array_index (key_name k')) as [n'|]; [|done].
  destruct (n' <? n)%N; [|done]. simpl. rewrite IH. apply Permutation_swap.
Qed.

Lemma obj_get_insert_index n k k' v o :
  obj_get k o = None ->
  obj_get k' (obj_insert_index n k v o)
  = if decide (k = k') then Some v else obj_get k' o.
Proof.
  induction o as [|[k1 v1] o IH]; simpl; intros Hk.
  - by destruct (decide (k = k')).
  - destruct (decide (k1 = k)) as [->|Hne]; [done|].
    destruct (array_index (key_name k1)) as [n'|];
      [destruct (n' <? n)%N|]; simpl.
    + destruct (decide (k1 = k')) as [->|Hne'].
      * by destruct (decide (k = k')); [congruence|].
      * by apply IH.
    + by destruct (decide (k = k')).
    + by destruct (decide (k = k')).
Qed.

Lemma obj_get_app k o o' :
  obj_get k (o ++ o') = match obj_get k o with
                        | Some v => Some v
                        | None => obj_get k o'
                        end.
Proof.
  induction o as [|[k1 v1] o IH]; simpl; [done|].
  by destruct (decide (k1 = k)).
Qed.

(** [obj[k] = v] and then [obj[k']] *)
Lemma obj_get_set k k' v o :
  obj_get k' (obj_set k v o)
  = if decide (k = k') then Some v else obj_get k' o.
Proof.
  unfold obj_set. destruct (obj_get k o) as [v0|] eqn:E.
  - rewrite obj_get_replace, E. by destruct (decide (k = k')).
  - destruct (array_index (key_name k)).
    + by apply obj_get_insert_index.
    + rewrite obj_get_app. simpl. destruct (decide (k = k')) as [<-|Hne].
      * by rewrite E.
      * by destruct (obj_get k' o).
Qed.

Lemma obj_keys_set k v o :
  NoDup (obj_keys o) -> NoDup (obj_keys (obj_set k v o)).
Proof.
  intros Ho. unfold obj_set. destruct (obj_get k o) as [v0|] eqn:E.
  - by rewrite obj_keys_replace.
  - apply obj_get_None in E. destruct (array_index (key_name k)).
    + rewrite obj_keys_insert_index. by constructor.
    + unfold obj_keys. rewrite map_app. simpl.
      apply NoDup_app. split; [done|]. split; [|apply NoDup_singleton].
      intros x Hx ->%list_elem_of_singleton. done.
Qed.

Lemma obj_keys_delete k o :
  NoDup (obj_keys o) ->
  NoDup (obj_keys (obj_delete k o))
  /\ forall k', k' ∈ obj_keys (obj_delete k o) -> k' ∈ obj_keys o /\ k' ≠ k.
Proof.
  induction o as [|[k1 v1] o IH]; simpl; intros Ho.
  - split; [done|]. by intros k' ?%elem_of_nil.
  - apply NoDup_cons in Ho as [Hk1 Ho]. destruct (decide (k1 = k)) as [->|Hne].
    + split; [done|]. intros k' Hk'. split; [by right|]. by intros ->.
    + destruct (IH Ho) as [IH1 IH2]. simpl. split.
      * apply NoDup_cons. split; [|done]. intros Hin. by apply IH2 in Hin as [? _].
      * intros k' [->|Hk']%elem_of_cons; [split; [by left|done]|].
        destruct (IH2 k' Hk'). split; [by right|done].
Qed.

(** [delete obj[k]] and then [obj[k']] *)
Lemma obj_get_delete k k' o :
  NoDup (obj_keys o) ->
  obj_get k' (obj_delete k o)
  = if decide (k = k') then None else obj_get k' o.
Proof.
  induction o as [|[k1 v1] o IH]; simpl; intros Ho.
  - by destruct (decide (k = k')).
  - apply NoDup_cons in Ho as [Hk1 Ho]. destruct (decide (k1 = k)) as [->|Hne].
    + destruct (decide (k = k')) as [<-|Hne']; [by apply obj_get_None|done].
    + simpl. destruct (decide (k1 = k')) as [->|Hne'].
      * by destruct (decide (k = k')); [congruence|].
      * by apply IH.
Qed.

Lemma obj_get_keys k o v : obj_get k o = Some v -> k ∈ obj_keys o.
Proof.
  intros E. destruct (decide (k ∈ obj_keys o)) as [|Hn]; [done|].
  apply obj_get_None in Hn. congruence.
Qed.
End Obj_facts.

(** *** The registry under the calls *)

Lemma same_views_refl (o : Obj Component) : same_views o o.
Proof. by split. Qed.

Lemma same_views_trans (o1 o2 o3 : Obj Component) :
  same_views o1 o2 -> same_views o2 o3 -> same_views o1 o3.
Proof.
  intros [K1 H1] [K2 H2]. split; [congruence|].
  intros k. by rewrite H2, H1.
Qed.

Lemma same_views_replace (o : Obj Component) (k : Key) (c c' : Component) :
  obj_get k o = Some c -> view c' = view c ->
  same_views o (obj_replace k c' o).
Proof.
  intros Hget Hview. split; [apply obj_keys_replace|].
  intros k'. rewrite obj_get_replace.
  destruct (decide (k = k')) as [<-|]; [|done].
  rewrite Hget. simpl. by rewrite Hview.
Qed.

Lemma view_activated (p : option Cid) (c : Component) :
  view (activated p c) = view c.
Proof. by destruct c. Qed.

Lemma view_set_enabled (b : bool) (c : Component) :
  view (set_enabled b c) = view c.
Proof. by destruct c. Qed.

Lemma view_set_engine (b : bool) (c : Component) :
  view (set_engine b c) = view c.
Proof. by destruct c. Qed.

Lemma exec_bind {A B} (m : M A) (f : A -> M B) (w : ComponentEngine) :
  exec (m ≫= f) w = match m w with
                    | (Return a, w1) => exec (f a) w1
                    | (Throw _, w1) => w1
                    end.
Proof. unfold exec, mbind, M_bind. by destruct (m w) as [[a|msg] w1]. Qed.

(** [getComponent] changes nothing, and what it returns is registered
    under the key that it gives. *)
Lemma getComponent_run (r : Ref) (w : ComponentEngine) :
  (exists msg, ComponentEngine.getComponent r w = (Throw msg, w))
  \/ (exists res,
        ComponentEngine.getComponent r w = (Return res, w)
        /\ forall k c, res = Some (k, c) -> obj_get k (components w) = Some c).
Proof.
  destruct r as [s|c|]; [right|right|left; by eexists].
  - eexists. split; [reflexivity|]. intros k c'.
    destruct (obj_get s (components w)) eqn:E; [|done]. by intros [= <- <-].
  - eexists. split; [reflexivity|]. intros k c'.
    destruct (obj_get (name c) (components w)) eqn:E; [|done].
    by intros [= <- <-].
Qed.

Lemma enableComponent_views (r : Ref) (w : ComponentEngine) :
  same_views (components w)
             (components (exec (ComponentEngine.enableComponent r) w)).
Proof.
  unfold ComponentEngine.enableComponent. rewrite exec_bind.
  destruct (getComponent_run r w) as [[msg E]|(res & E & Hres)]; rewrite E;
    [apply same_views_refl|].
  destruct res as [[k c]|]; [|apply same_views_refl].
  destruct (enabled c); [apply same_views_refl|].
  rewrite exec_bind.
  destruct (returns_initComponent c None None w) as (w1 & E1 & Hev).
  rewrite E1. unfold exec. simpl. rewrite (ev_components _ _ _ Hev).
  eapply same_views_replace; [by apply Hres|apply view_activated].
Qed.

Lemma disableComponent_views (r : Ref) (w : ComponentEngine) :
  same_views (components w)
             (components (exec (ComponentEngine.disableComponent r) w)).
Proof.
  unfold ComponentEngine.disableComponent. rewrite exec_bind.
  destruct (getComponent_run r w) as [[msg E]|(res & E & Hres)]; rewrite E;
    [apply same_views_refl|].
  destruct res as [[k c]|]; [|apply same_views_refl].
  destruct (enabled c); [|apply same_views_refl].
  rewrite exec_bind. pose proof (frames_call_remove c w) as Hframe.
  destruct (ComponentEngine.call_remove c w) as [[[]|msg] w1]; simpl in Hframe;
    [|rewrite Hframe; apply same_views_refl].
  unfold exec. simpl. rewrite Hframe.
  eapply same_views_replace; [by apply Hres|apply view_set_enabled].
Qed.

(** [removeComponent] can only drop the entry of the key
    [[object Object]]. *)
Lemma removeComponent_views (r : Ref) (w : ComponentEngine) :
  distinct_keys w ->
  let o' := components (exec (ComponentEngine.removeComponent r) w) in
  NoDup (obj_keys o')
  /\ forall k,
       view <$> obj_get k o' = view <$> obj_get k (components w)
       \/ (k = ComponentEngine.object_Object /\ obj_get k o' = None).
Proof.
  intros Hdistinct o'. unfold o', ComponentEngine.removeComponent.
  rewrite exec_bind.
  destruct (getComponent_run r w) as [[msg E]|(res & E & Hres)]; rewrite E;
    [split; [done|by left]|].
  rewrite exec_bind.
  pose proof (disableComponent_views (ref_of res) w) as [Hkeys Hviews].
  unfold exec in Hkeys, Hviews.
  destruct (ComponentEngine.disableComponent (ref_of res) w)
    as [[[]|msg] w1]; simpl in Hkeys, Hviews;
    [|split; [by rewrite Hkeys|intros k'; left; apply Hviews]].
  destruct res as [[k c]|];
    [|split; [unfold exec; simpl; by rewrite Hkeys
             |intros k'; left; apply Hviews]].
  unfold exec. change ((get ≫= ?f) w1) with (f w1 w1). cbv beta.
  set (o1 := match obj_get k (components w1) with
             | Some c0 => obj_replace k (set_engine false c0) (components w1)
             | None => components w1
             end).
  assert (same_views (components w1) o1) as [Hkeys1 Hviews1].
  { unfold o1. destruct (obj_get k (components w1)) as [c0|] eqn:E0;
      [|apply same_views_refl].
    eapply same_views_replace; [exact E0|apply view_set_engine]. }
  assert (NoDup (obj_keys o1)) as Hnodup1 by (by rewrite Hkeys1, Hkeys).
  assert (forall k',
             view <$> obj_get k' (obj_delete ComponentEngine.object_Object o1)
             = view <$> obj_get k' (components w)
             \/ (k' = ComponentEngine.object_Object
                 /\ obj_get k' (obj_delete ComponentEngine.object_Object o1)
                    = None)) as Hdel.
  { intros k'. rewrite (obj_get_delete _ _ _ Hnodup1).
    destruct (decide (ComponentEngine.object_Object = k')) as [<-|Hne];
      [by right|].
    left. by rewrite Hviews1, Hviews. }
  pose proof (obj_keys_delete ComponentEngine.object_Object o1 Hnodup1)
    as [Hnodup2 _].
  unfold o1 in Hdel, Hnodup2.
  by destruct (obj_get k (components w1)).
Qed.

Lemma addComponent_views (c0 : Component) (w : ComponentEngine) :
  distinct_keys w ->
  let o' := components (exec (ComponentEngine.addComponent c0) w) in
  NoDup (obj_keys o')
  /\ forall k,
       view <$> obj_get k o' = view <$> obj_get k (components w)
       \/ (k = name c0 /\ obj_get k (components w) = None
           /\ view <$> obj_get k o' = Some (view c0)).
Proof.
  intros Hdistinct o'. unfold o', ComponentEngine.addComponent.
  rewrite exec_bind. simpl.
  destruct (obj_get (name c0) (components w)) as [c1|] eqn:E;
    [split; [done|by left]|].
  assert (exists c w1,
             (if initialized w
              then ComponentEngine.call_guard c0
                   ≫= λ ok : bool,
                     if ok then ComponentEngine._initComponent None c0 None
                     else mret c0
              else mret c0) w = (Return c, w1)
             /\ view c = view c0 /\ name c = name c0
             /\ components w1 = components w) as (c & w1 & E1 & Hv & Hn & Hc).
  { destruct (initialized w); [|by exists c0, w].
    destruct (returns_call_guard c0 w) as (w1 & E1 & Hev1).
    rewrite (bind_return _ _ _ _ _ E1). destruct (guard c0).
    - destruct (returns_initComponent c0 None None w1) as (w2 & E2 & Hev2).
      exists (activated None c0), w2. split; [done|].
      split; [apply view_activated|].
      split; [by destruct c0|].
      by rewrite (ev_components _ _ _ Hev2), (ev_components _ _ _ Hev1).
    - exists c0, w1. split; [done|].
      by rewrite (ev_components _ _ _ Hev1). }
  rewrite exec_bind, E1. unfold exec. simpl. rewrite Hc, Hn.
  split; [by apply obj_keys_set|]. intros k. rewrite obj_get_set.
  destruct (decide (name c0 = k)) as [<-|Hne]; [|by left].
  right. split; [done|]. split; [done|]. simpl. by rewrite Hv.
Qed.

(** *** The registry under [init] *)

Lemma resolved_idempotent (jq : Query) (v : option string * option (list Elem)) :
  resolved jq (resolved jq v) = resolved jq v.
Proof.
  destruct v as [[s|] els]; unfold resolved; simpl; [|done].
  destruct (negb (String.eqb s "") && (0 <? length (jq s))%nat) eqn:E; simpl;
    by rewrite ?E.
Qed.

Lemma view_tryToSetElements (jq : Query) (c : Component) (s : string) :
  selector c = Some s ->
  view (Component.tryToSetElements jq c).1
  = (Some s, if (0 <? length (jq s))%nat then Some (jq s) else elements c).
Proof.
  intros Hsel. unfold Component.tryToSetElements. rewrite Hsel. simpl.
  destruct (0 <? length (jq s))%nat; unfold view; destruct c; simpl in *;
    by rewrite Hsel.
Qed.

Lemma view_init_result (jq : Query) (c : Component) :
  view (init_result jq c) = resolved jq (view c).
Proof.
  unfold init_result.
  assert (forall p : Component * bool,
             view (let '(c1, found) := p in
                   if found && guard c1 then activated None c1 else c1)
             = view p.1) as H.
  { intros [c1 [|]]; simpl; [|done].
    destruct (guard c1); [apply view_activated|done]. }
  rewrite H. clear H. unfold resolved, ComponentEngine.truthy.
  replace (view c).1 with (selector c) by done.
  destruct (selector c) as [s|] eqn:Hsel; [|done].
  destruct (String.eqb s ""); cbn [negb andb fst]; [done|].
  rewrite (view_tryToSetElements jq c s Hsel).
  destruct (0 <? length (jq s))%nat; [done|]. unfold view. by rewrite Hsel.
Qed.

(** A round of the first loop of [init] returns, and makes
    [init_result] of the component that is registered under the key. *)
Lemma init_component_run (jq : Query) (k : Key) (w : ComponentEngine) :
  exists w',
    ComponentEngine.init_component jq k w = (Return tt, w')
    /\ components w'
       = match obj_get k (components w) with
         | Some c => obj_replace k (init_result jq c) (components w)
         | None => components w
         end.
Proof.
  unfold ComponentEngine.init_component, init_result.
  change ((get ≫= ?f) w) with (f w w). cbv beta.
  destruct (obj_get k (components w)) as [c|]; [|by exists w].
  destruct (if ComponentEngine.truthy (selector c)
            then Component.tryToSetElements jq c else (c, true))
    as [c1 found].
  unfold mbind at 1, M_bind at 1. simpl.
  destruct found; simpl; [|by eexists].
  set (w1 := set_components (obj_replace k c1 (components w)) w).
  destruct (returns_call_guard c1 w1) as (w2 & E2 & Hev2).
  rewrite (bind_return _ _ _ _ _ E2).
  destruct (guard c1).
  - destruct (returns_initComponent c1 None None w2) as (w3 & E3 & Hev3).
    rewrite (bind_return _ _ _ _ _ E3). eexists. split; [done|]. simpl.
    rewrite (ev_components _ _ _ Hev3), (ev_components _ _ _ Hev2).
    unfold w1. simpl. apply obj_replace_replace.
  - exists w2. split; [done|]. by rewrite (ev_components _ _ _ Hev2).
Qed.

Lemma init_pass_views (jq : Query) (ks : list Key) (w : ComponentEngine) :
  exists w',
    for_each (ComponentEngine.init_component jq) ks w = (Return tt, w')
    /\ obj_keys (components w') = obj_keys (components w)
    /\ forall k,
         view <$> obj_get k (components w')
         = (if decide (k ∈ ks) then resolved jq else id)
             <$> (view <$> obj_get k (components w)).
Proof.
  revert w. induction ks as [|k1 ks IH]; intros w; simpl.
  - exists w. split; [done|]. split; [done|]. intros k.
    destruct (decide (k ∈ [])) as [H%elem_of_nil|]; [done|].
    by destruct (obj_get k (components w)).
  - destruct (init_component_run jq k1 w) as (w1 & E1 & Hc1).
    rewrite (bind_return _ _ _ _ _ E1).
    destruct (IH w1) as (w2 & E2 & Hkeys & Hviews). exists w2.
    split; [done|].
    assert (obj_keys (components w1) = obj_keys (components w)
            /\ forall k,
                 view <$> obj_get k (components w1)
                 = (if decide (k = k1) then resolved jq else id)
                     <$> (view <$> obj_get k (components w))) as [Hk1 Hv1].
    { rewrite Hc1. destruct (obj_get k1 (components w)) as [c|] eqn:Ec.
      - split; [apply obj_keys_replace|]. intros k. rewrite obj_get_replace.
        destruct (decide (k1 = k)) as [<-|Hne].
        + destruct (decide (k1 = k1)); [|done]. rewrite Ec. simpl.
          by rewrite view_init_result.
        + destruct (decide (k = k1)); [congruence|].
          by destruct (obj_get k (components w)).
      - split; [done|]. intros k. destruct (decide (k = k1)) as [->|];
          [by rewrite Ec|by destruct (obj_get k (components w))]. }
    split; [congruence|]. intros k. rewrite Hviews, Hv1.
    destruct (obj_get k (components w)) as [c|]; simpl;
      [|by repeat case_decide].
    destruct (decide (k = k1)) as [->|Hne].
    + destruct (decide (k1 ∈ k1 :: ks)) as [|Hn];
        [|exfalso; apply Hn; by left].
      destruct (decide (k1 ∈ ks)); simpl; [by rewrite resolved_idempotent|done].
    + destruct (decide (k ∈ ks)) as [Hin|Hnin];
        destruct (decide (k ∈ k1 :: ks)) as [Hin'|Hnin']; simpl; try done.
      * exfalso. apply Hnin'. by right.
      * apply elem_of_cons in Hin' as [?|?]; done.
Qed.

Lemma frames_modify (f : ComponentEngine -> ComponentEngine) :
  (forall w, components (f w) = components w) -> frames (modify f).
Proof. intros Hf w. apply Hf. Qed.

Lemma frames_get {A} (f : ComponentEngine -> M A) :
  (forall w, frames (f w)) -> frames (get ≫= f).
Proof. intros Hf w. apply (Hf w w). Qed.

(** [init] keeps the keys of the registry, and under each key the
    selector, and stores what the selector matches where it matches. *)
Lemma init_views (jq : Query) (w : ComponentEngine) :
  let o' := components (exec (ComponentEngine.init jq) w) in
  obj_keys o' = obj_keys (components w)
  /\ forall k,
       view <$> obj_get k o' = resolved jq <$> (view <$> obj_get k (components w)).
Proof.
  intros o'.
  destruct (init_pass_views jq (obj_keys (components w)) w)
    as (w1 & E1 & Hkeys & Hviews).
  assert (o' = components w1) as ->.
  { unfold o', ComponentEngine.init, exec.
    change ((get ≫= ?f) w) with (f w w). cbv beta.
    rewrite (bind_return _ _ _ _ _ E1).
    apply frames_bind; [by apply frames_modify|]. intros _.
    apply frames_get. intros w2.
    apply frames_bind;
      [apply frames_for_each; intros [e d]; apply frames_dispatchEvent|].
    intros _. apply frames_bind; [by apply frames_modify|]. intros _.
    by apply frames_modify. }
  split; [exact Hkeys|]. intros k. rewrite Hviews.
  destruct (obj_get k (components w)) as [c|] eqn:E; [|by case_decide].
  destruct (decide (k ∈ obj_keys (components w))) as [|Hn]; [done|].
  destruct Hn. by eapply obj_get_keys.
Qed.

(** *** The stored elements after a sequence of calls *)

(** A call that is not [init] leaves the stored elements under every
    key; [addComponent] adds a key and [removeComponent] can drop one. *)
Lemma step_views (op : Op) (w : ComponentEngine) :
  is_init op = false ->
  distinct_keys w ->
  let o' := components (exec (step op) w) in
  NoDup (obj_keys o')
  /\ forall k,
       view <$> obj_get k o' = view <$> obj_get k (components w)
       \/ (exists c0,
              op = OpAddComponent c0 /\ k = name c0
              /\ obj_get k (components w) = None
              /\ view <$> obj_get k o' = Some (view c0))
       \/ (exists r,
              op = OpRemoveComponent r /\ k = ComponentEngine.object_Object
              /\ obj_get k o' = None).
Proof.
  intros Hop Hdistinct o'. unfold o'. clear o'.
  assert (forall m : M unit,
             frames m ->
             NoDup (obj_keys (components (exec m w)))
             /\ forall k,
                  view <$> obj_get k (components (exec m w))
                  = view <$> obj_get k (components w)) as Hframes.
  { intros m Hm. unfold exec. split; [rewrite Hm; exact Hdistinct|].
    intros k. by rewrite Hm. }
  assert (forall o',
             same_views (components w) o' ->
             NoDup (obj_keys o')
             /\ forall k,
                  view <$> obj_get k o' = view <$> obj_get k (components w))
    as Hsame.
  { intros o' [Hkeys Hviews].
    split; [rewrite Hkeys; exact Hdistinct|done]. }
  destruct op as [jq|c0|r|r|r|e l|e l|e d|a el]; simpl; [done|..].
  - destruct (addComponent_views c0 w Hdistinct) as [H1 H2].
    split; [exact H1|]. intros k. destruct (H2 k) as [?|(? & ? & ?)];
      [by left|right; left; by exists c0].
  - destruct (Hsame _ (enableComponent_views r w)) as [H1 H2].
    split; [exact H1|]. intros k. left. apply H2.
  - destruct (Hsame _ (disableComponent_views r w)) as [H1 H2].
    split; [exact H1|]. intros k. left. apply H2.
  - destruct (removeComponent_views r w Hdistinct) as [H1 H2].
    split; [exact H1|]. intros k. destruct (H2 k) as [?|[? ?]];
      [by left|right; right; by exists r].
  - destruct (Hframes _ (frames_addEventListener e l)) as [H1 H2].
    split; [exact H1|]. intros k. left. apply H2.
  - destruct (Hframes _ (frames_removeEventListener e l)) as [H1 H2].
    split; [exact H1|]. intros k. left. apply H2.
  - destruct (Hframes _ (frames_dispatchEvent e d)) as [H1 H2].
    split; [exact H1|]. intros k. left. apply H2.
  - destruct (Hframes _ (frames_actionHandler a el)) as [H1 H2].
    split; [exact H1|]. intros k. left. apply H2.
Qed.

Lemma from_init_or_constructor_mono (ops ops' : list Op)
    (v : option string * option (list Elem)) :
  (forall op, In op ops -> In op ops') ->
  from_init_or_constructor ops v -> from_init_or_constructor ops' v.
Proof.
  intros Hsub Hv els Hels.
  destruct (Hv els Hels) as [(s & jq & ? & ? & ? & ? & ?)|(c0 & ? & ?)].
  - left. exists s, jq. repeat split; auto.
  - right. exists c0. split; auto.
Qed.

Lemma from_init_or_constructor_resolved (ops : list Op) (jq : Query)
    (v : option string * option (list Elem)) :
  from_init_or_constructor ops v ->
  from_init_or_constructor (ops ++ [OpInit jq]) (resolved jq v).
Proof.
  intros Hv. unfold resolved.
  assert (from_init_or_constructor (ops ++ [OpInit jq]) v) as Hv'.
  { eapply from_init_or_constructor_mono; [|exact Hv].
    intros op Hop. apply in_or_app. by left. }
  destruct v.1 as [s|] eqn:Hs; [|done].
  destruct (String.eqb s "") eqn:Hempty; simpl; [done|].
  destruct (0 <? length (jq s))%nat eqn:Hlen; [|done].
  intros els [= <-]. left. exists s, jq. simpl.
  split; [done|]. split; [by intros ->|].
  split; [apply in_or_app; right; by left|]. split; [done|].
  intros Hnil. by rewrite Hnil in Hlen.
Qed.

Lemma steps_snoc (ops : list Op) (op : Op) (w : ComponentEngine) :
  steps (ops ++ [op]) w = exec (step op) (steps ops w).
Proof. unfold steps. by rewrite fold_left_app. Qed.

Lemma steps_views (ops : list Op) :
  distinct_keys (steps ops newEngine)
  /\ forall k c,
       obj_get k (components (steps ops newEngine)) = Some c ->
       from_init_or_constructor ops (view c).
Proof.
  induction ops as [|op ops [IH1 IH2]] using rev_ind.
  - split; [apply NoDup_nil_2|]. intros k c. done.
  - rewrite steps_snoc. set (w := steps ops newEngine) in *.
    destruct (is_init op) eqn:Hop.
    + destruct op as [jq| | | | | | | |]; try done. simpl.
      destruct (init_views jq w) as [Hkeys Hviews].
      split; [unfold distinct_keys; rewrite Hkeys; exact IH1|].
      intros k c Hget. specialize (Hviews k). rewrite Hget in Hviews.
      destruct (obj_get k (components w)) as [c1|] eqn:E1; [|done].
      apply (inj Some) in Hviews. rewrite Hviews.
      by apply from_init_or_constructor_resolved, (IH2 k).
    + destruct (step_views op w Hop IH1) as [Hnodup Hviews].
      split; [exact Hnodup|]. intros k c Hget.
      destruct (Hviews k) as [Hsame|[(c0 & -> & -> & _ & Hadd)|(r & _ & _ & Hrem)]].
      * rewrite Hget in Hsame.
        destruct (obj_get k (components w)) as [c1|] eqn:E1; [|done].
        apply (inj Some) in Hsame. rewrite Hsame.
        eapply from_init_or_constructor_mono; [|by apply (IH2 k)].
        intros op' Hop'. apply in_or_app. by left.
      * rewrite Hget in Hadd. apply (inj Some) in Hadd.
        intros els Hels. right. exists c0.
        split; [apply in_or_app; right; by left|].
        replace (elements c0) with (view c0).2 by done. by rewrite <- Hadd.
      * congruence.
Qed.

(** C2, amended.  The stored elements of a registered component are
    written by [init] alone, whatever its enabled flag.  [init] on a
    document keeps the registered keys and stores, under each of them,
    what the selector of the component matches when it has a non-empty
    selector that matches at least one element, and leaves what was
    stored otherwise.  Any other call leaves what is stored under every
    key: [addComponent] only adds the new component with the elements it
    was constructed with, and [removeComponent] can only drop the entry of
    the key [[object Object]].  So, after any sequence of calls on a new
    engine, what is stored in a registered component is what a call of
    [init] found for its non-empty selector, at least one element, or
    what a registered component was constructed with. *)
Theorem elements_written_by_init_alone :
  (forall jq w k,
      view <$> obj_get k (components (exec (ComponentEngine.init jq) w))
      = resolved jq <$> (view <$> obj_get k (components w)))
  /\ (forall op w k,
        is_init op = false ->
        distinct_keys w ->
        let o' := components (exec (step op) w) in
        view <$> obj_get k o' = view <$> obj_get k (components w)
        \/ (exists c0,
               op = OpAddComponent c0 /\ k = name c0
               /\ obj_get k (components w) = None
               /\ view <$> obj_get k o' = Some (view c0))
        \/ (exists r,
               op = OpRemoveComponent r /\ k = ComponentEngine.object_Object
               /\ obj_get k o' = None))
  /\ (forall ops k c els,
        obj_get k (components (steps ops newEngine)) = Some c ->
        elements c = Some els ->
        (exists s jq,
            selector c = Some s /\ s ≠ "" /\ In (OpInit jq) ops
            /\ els = jq s /\ els ≠ [])
        \/ (exists c0, In (OpAddComponent c0) ops /\ elements c0 = Some els)).
Proof.
  split; [|split].
  - intros jq w k. apply init_views.
  - intros op w k Hop Hdistinct. by apply step_views.
  - intros ops k c els Hget Hels.
    destruct (steps_views ops) as [_ H]. by apply (H k c Hget els).
Qed.

Lemma elements_written_by_init_alone_witness :
  let ops := [OpAddComponent Baz; OpInit one_foo] in
  let w := steps ops newEngine in
  is_init (OpDisableComponent (ByName #"Baz")) = false
  /\ distinct_keys w
  /\ view <$> obj_get #"Baz" (components w) = Some (Some ".foo", Some [7])
  /\ view <$> obj_get #"Baz"
       (components (exec (step (OpDisableComponent (ByName #"Baz"))) w))
     = Some (Some ".foo", Some [7])
  /\ exists s jq, In (OpInit jq) ops /\ [7] = jq s.
Proof.
  intros ops w.
  destruct elements_written_by_init_alone as (_ & Hstep & Hsteps).
  assert (distinct_keys w) as Hdistinct
    by (apply NoDup_singleton).
  split; [reflexivity|]. split; [exact Hdistinct|].
  split; [reflexivity|]. split.
  - destruct (Hstep (OpDisableComponent (ByName #"Baz")) w #"Baz"
                eq_refl Hdistinct) as [H|[(c0 & H & _)|(r & H & _)]];
      [exact H|discriminate H|discriminate H].
  - destruct (Hsteps ops #"Baz" _ [7] eq_refl eq_refl)
      as [(s & jq & _ & _ & Hin & Heq & _)|(c0 & [H|[H|[]]] & Hc0)].
    + by exists s, jq.
    + injection H as <-. discriminate Hc0.
    + discriminate H.
Defined.

(** ** More on the event bus *)

Section SpliceFacts.
Context {A : Type} `{EqDecision A}.

(** [splice(i, 1)] at the place of an element removes it. *)
Lemma splice_middle (pre post : list A) (x : A) :
  splice (Z.of_nat (length pre)) 1 (pre ++ x :: post) = pre ++ post.
Proof.
  unfold splice. rewrite length_app. simpl.
  destruct (Z.ltb_spec (Z.of_nat (length pre)) 0) as [|_]; [lia|].
  rewrite (Z.min_l (Z.of_nat (length pre))) by lia.
  rewrite (Z.max_l 1 0) by lia. rewrite (Z.min_l 1) by lia.
  rewrite Nat2Z.id.
  replace (Z.to_nat (Z.of_nat (length pre) + 1)) with (length pre + 1)%nat by lia.
  rewrite take_app_length. f_equal.
  rewrite drop_app_add'; [|done]. done.
Qed.

Lemma indexOf_from_first (pre post : list A) (x : A) (i : Z) :
  x ∉ pre -> indexOf_from i (pre ++ x :: post) x = (i + Z.of_nat (length pre))%Z.
Proof.
  revert i. induction pre as [|y pre IH]; intros i Hx; simpl.
  - destruct (decide (x = x)); [lia|done].
  - apply not_elem_of_cons in Hx as [Hne Hx].
    destruct (decide (y = x)); [congruence|]. rewrite IH by done. lia.
Qed.
End SpliceFacts.

(** The loop of [disableComponent] over one array does what [purged]
    says. *)
Lemma purge_from_purged (mine : Listener -> bool) (rounds : nat) :
  forall pre listeners,
    length listeners <= rounds ->
    ComponentEngine.purge_from rounds (length pre) mine (pre ++ listeners)
    = pre ++ purged mine listeners.
Proof.
  induction rounds as [|rounds IH]; intros pre ls Hlen.
  - destruct ls; [done|simpl in Hlen; lia].
  - destruct ls as [|l rest]; simpl.
    + rewrite app_nil_r. by rewrite lookup_ge_None_2.
    + rewrite lookup_app_r, Nat.sub_diag by done. simpl.
      simpl in Hlen. destruct (mine l).
      * rewrite splice_middle. destruct rest as [|next rest'].
        -- rewrite app_nil_r. destruct rounds; [done|]. simpl.
           by rewrite lookup_ge_None_2 by lia.
        -- replace (pre ++ next :: rest') with ((pre ++ [next]) ++ rest')
             by (by rewrite <- app_assoc).
           replace (S (length pre)) with (length (pre ++ [next]))
             by (rewrite length_app; simpl; lia).
           rewrite IH by (simpl in Hlen; lia). by rewrite <- app_assoc.
      * replace (pre ++ l :: rest) with ((pre ++ [l]) ++ rest)
          by (by rewrite <- app_assoc).
        replace (S (length pre)) with (length (pre ++ [l]))
          by (rewrite length_app; simpl; lia).
        rewrite IH by lia. by rewrite <- app_assoc.
Qed.

Lemma filter_keep {A} (f : A -> bool) (x : A) (l : list A) :
  f x = true -> List.filter f (x :: l) = x :: List.filter f l.
Proof. intros H. simpl. by rewrite H. Qed.

Lemma filter_drop {A} (f : A -> bool) (x : A) (l : list A) :
  f x = false -> List.filter f (x :: l) = List.filter f l.
Proof. intros H. simpl. by rewrite H. Qed.

Lemma purged_cons (mine : Listener -> bool) (x y : Listener)
    (rest : list Listener) :
  purged mine (x :: y :: rest)
  = if mine x then y :: purged mine rest else x :: purged mine (y :: rest).
Proof. done. Qed.

Lemma purged_others (mine : Listener -> bool) (listeners : list Listener) :
  List.filter (fun l => negb (mine l)) (purged mine listeners)
  = List.filter (fun l => negb (mine l)) listeners.
Proof.
  cut ((List.filter (fun l => negb (mine l)) (purged mine listeners)
        = List.filter (fun l => negb (mine l)) listeners)
       /\ forall x,
            List.filter (fun l => negb (mine l)) (purged mine (x :: listeners))
            = List.filter (fun l => negb (mine l)) (x :: listeners));
    [by intros [? _]|].
  induction listeners as [|y rest [IH1 IH2]].
  - split; [done|]. intros x. simpl.
    destruct (mine x) eqn:E; simpl; rewrite ?E; done.
  - split; [apply IH2|]. intros x. rewrite purged_cons.
    destruct (mine x) eqn:Hx.
    + rewrite (filter_drop _ x) by (by rewrite Hx).
      destruct (mine y) eqn:Hy.
      * rewrite !(filter_drop _ y) by (by rewrite Hy). exact IH1.
      * rewrite !(filter_keep _ y) by (by rewrite Hy). by rewrite IH1.
    + rewrite !(filter_keep _ x) by (by rewrite Hx). f_equal. apply IH2.
Qed.

Lemma purged_apart (mine : Listener -> bool) (listeners : list Listener) :
  apart mine listeners = true ->
  purged mine listeners = List.filter (fun l => negb (mine l)) listeners.
Proof.
  cut ((apart mine listeners = true ->
        purged mine listeners
        = List.filter (fun l => negb (mine l)) listeners)
       /\ forall x,
            apart mine (x :: listeners) = true ->
            purged mine (x :: listeners)
            = List.filter (fun l => negb (mine l)) (x :: listeners));
    [by intros [? _]|].
  induction listeners as [|y rest [IH1 IH2]].
  - split; [done|]. intros x _. simpl.
    destruct (mine x) eqn:E; simpl; rewrite ?E; done.
  - split; [apply IH2|]. intros x. rewrite purged_cons.
    change (apart mine (x :: y :: rest))
      with (negb (mine x && mine y) && apart mine (y :: rest)).
    intros [Hadj Hrest]%andb_true_iff. destruct (mine x) eqn:Hx.
    + simpl in Hadj. apply negb_true_iff in Hadj.
      rewrite (filter_drop _ x) by (by rewrite Hx).
      rewrite (filter_keep _ y) by (by rewrite Hadj). f_equal. apply IH1.
      change (apart mine (y :: rest))
        with (match rest with
              | [] => true
              | next :: _ => negb (mine y && mine next)
              end && apart mine rest) in Hrest.
      by apply andb_true_iff in Hrest as [_ ?].
    + rewrite (filter_keep _ x) by (by rewrite Hx). f_equal. by apply IH2.
Qed.

(** X1.  The loop of [disableComponent] over the array of an event keeps
    every listener of the other components, in their order; it removes
    every listener of the component when no two of them are next to each
    other in the array. *)
Theorem purge_keeps_others
    (mine : Listener -> bool) (listeners : list Listener) :
  List.filter (fun l => negb (mine l)) (ComponentEngine.purge mine listeners)
  = List.filter (fun l => negb (mine l)) listeners
  /\ (apart mine listeners = true ->
      ComponentEngine.purge mine listeners
      = List.filter (fun l => negb (mine l)) listeners).
Proof.
  assert (ComponentEngine.purge mine listeners = purged mine listeners) as ->.
  { unfold ComponentEngine.purge.
    exact (purge_from_purged mine (length listeners) [] listeners
             (Nat.le_refl _)). }
  split; [apply purged_others|apply purged_apart].
Qed.

Lemma purge_keeps_others_witness :
  let mine := fun l => (l <? 200)%nat in
  apart mine [100; 200; 101] = true
  /\ ComponentEngine.purge mine [100; 200; 101] = [200].
Proof.
  intros mine. split; [reflexivity|].
  destruct (purge_keeps_others mine [100; 200; 101]) as [_ H].
  apply H. reflexivity.
Defined.

(** X2.  [removeEventListener] of a listener that is in the array of the
    event removes its first occurrence and nothing else; so a listener
    that was not in the array is gone after [addEventListener] and
    [removeEventListener], and the array is as it was. *)
Theorem removeEventListener_removes_first
    (w : ComponentEngine) (event : Key) (l : Listener)
    (pre post : list Listener) :
  l ∉ pre ->
  (eventListeners w !! event = Some (pre ++ l :: post) ->
   eventListeners (exec (ComponentEngine.removeEventListener event l) w)
     !! event
   = Some (pre ++ post))
  /\ (default [] (eventListeners w !! event) = pre ->
      eventListeners
        (exec (ComponentEngine.addEventListener event l ;;
               ComponentEngine.removeEventListener event l) w) !! event
      = Some pre).
Proof.
  intros Hl.
  assert (splice (indexOf (pre ++ l :: post) l) 1 (pre ++ l :: post)
          = pre ++ post) as Hsplice.
  { unfold indexOf. rewrite indexOf_from_first by done. simpl.
    apply splice_middle. }
  split.
  - intros Hls. unfold exec, ComponentEngine.removeEventListener, modify.
    simpl. rewrite Hls. simpl. by rewrite lookup_insert_eq, Hsplice.
  - intros Hpre. unfold exec, ComponentEngine.removeEventListener,
      ComponentEngine.addEventListener, modify, mbind, M_bind. simpl.
    rewrite lookup_insert_eq. simpl. rewrite lookup_insert_eq, Hpre.
    assert (splice (indexOf (pre ++ [l]) l) 1 (pre ++ [l]) = pre) as ->; [|done].
    { unfold indexOf. rewrite indexOf_from_first by done.
      rewrite Z.add_0_l, (splice_middle pre [] l). apply app_nil_r. }
Qed.

Lemma removeEventListener_removes_first_witness :
  (3 ∉ [1; 2])
  /\ default [] (eventListeners two_listeners !! #"e") = [1; 2]
  /\ eventListeners
       (exec (ComponentEngine.addEventListener #"e" 3 ;;
              ComponentEngine.removeEventListener #"e" 3) two_listeners)
       !! #"e" = Some [1; 2]
  /\ (1 ∉ @nil Listener)
  /\ eventListeners two_listeners !! #"e" = Some ([] ++ 1 :: [2])
  /\ eventListeners
       (exec (ComponentEngine.removeEventListener #"e" 1) two_listeners)
       !! #"e" = Some [2].
Proof.
  assert (3 ∉ [1; 2]) as H3 by absent.
  destruct (removeEventListener_removes_first two_listeners #"e" 3 [1; 2] [] H3)
    as [_ Hround].
  destruct (removeEventListener_removes_first two_listeners #"e" 1 [] [2]
              (not_elem_of_nil 1)) as [Hfirst _].
  split; [exact H3|]. split; [reflexivity|].
  split; [apply Hround; reflexivity|].
  split; [apply not_elem_of_nil|]. split; [reflexivity|].
  apply Hfirst. reflexivity.
Defined.

(** ** More on actions *)

Lemma fired_unfold (name : Key) (element : Elem) (c : Component) :
  fired name element c
  = match actions c !! name with
    | Some (AFun cb) => [Action cb element (cid c)]
    | _ => []
    end ++ flat_map (fired name element) (subcomponents c).
Proof. by destruct c. Qed.

Lemma executeAction_fired (name : Key) (element : Elem) (c : Component) :
  plain name c = true ->
  forall w,
    Component.executeAction name element c w
    = (Return tt, set_trace (trace w ++ fired name element c) w).
Proof.
  induction c as [id nm sel g i r subs eng en par acts els IH]
    using Component_tree_ind.
  simpl. intros [[Hlen Hname]%andb_true_iff Hsubs]%andb_true_iff w.
  assert (forall w,
             for_each (Component.executeAction name element) subs w
             = (Return tt,
                set_trace (trace w ++ flat_map (fired name element) subs) w))
    as Hrest.
  { clear w. induction IH as [|k subs Hk _ IHsubs]; intros w; simpl.
    - by rewrite app_nil_r, set_trace_same.
    - simpl in Hsubs. apply andb_true_iff in Hsubs as [Hk' Hsubs'].
      rewrite (bind_return _ _ _ _ _ (Hk Hk' w)), (IHsubs Hsubs'). simpl.
      by rewrite <- app_assoc. }
  assert (Component.rounds (acts !! #"length") = 0) as Hrounds.
  { destruct (acts !! #"length") as [[[|]| |]|]; done. }
  rewrite Hrounds. simpl.
  destruct (acts !! name) as [[cbs|cb|n]|]; [| |done|].
  - rewrite (bind_return _ _ w w tt) by done. by rewrite Hrest.
  - unfold Component.apply, emit, modify.
    unfold mbind at 1, M_bind at 1. rewrite Hrest. simpl.
    by rewrite <- app_assoc.
  - rewrite (bind_return _ _ w w tt) by done. by rewrite Hrest.
Qed.

(** X3.  When no [actions] object of a tree has a number under [length]
    or under the name, [executeAction] returns and calls exactly the
    functions that the components have under the name, the one of a
    component before those of its subcomponents, the subcomponents in the
    order of their declaration; the callbacks of the arrays that
    [addAction] builds are not among them. *)
Theorem executeAction_calls_functions_only
    (name : Key) (element : Elem) (c : Component) (w : ComponentEngine) :
  plain name c = true ->
  Component.executeAction name element c w
  = (Return tt, set_trace (trace w ++ fired name element c) w)
  /\ (forall cbs, actions c !! name = Some (AArr cbs) ->
      fired name element c
      = flat_map (fired name element) (subcomponents c)).
Proof.
  intros Hplain. split; [by apply executeAction_fired|].
  intros cbs Hcbs. by rewrite fired_unfold, Hcbs.
Qed.

Lemma executeAction_calls_functions_only_witness :
  let child := set_actions {[ #"save" := AFun 30 ]}
                 (newComponent 2 #"B" None true None None []) in
  let top := set_actions {[ #"save" := AArr [10] ]}
               (newComponent 1 #"A" None true None None [child]) in
  plain #"save" top = true
  /\ trace (exec (Component.executeAction #"save" 7 top) newEngine)
     = [Action 30 7 2].
Proof.
  intros child top. split; [vm_compute; reflexivity|].
  destruct (executeAction_calls_functions_only #"save" 7 top newEngine)
    as [H _]; [vm_compute; reflexivity|].
  unfold exec. rewrite H. vm_compute. reflexivity.
Defined.

(** ** More on the registry *)

(** X4.  [removeComponent] leaves registered every component whose key
    is not [[object Object]], with its selector and its stored elements,
    whatever component it is given. *)
Theorem removeComponent_leaves_registered
    (r : Ref) (w : ComponentEngine) (k : Key) (c : Component) :
  distinct_keys w ->
  k ≠ ComponentEngine.object_Object ->
  obj_get k (components w) = Some c ->
  exists c',
    obj_get k (components (exec (ComponentEngine.removeComponent r) w))
    = Some c'
    /\ selector c' = selector c /\ elements c' = elements c.
Proof.
  intros Hdistinct Hk Hget.
  destruct (removeComponent_views r w Hdistinct) as [_ H].
  destruct (H k) as [Hsame|[? _]]; [|done].
  rewrite Hget in Hsame.
  destruct (obj_get k (components (exec (ComponentEngine.removeComponent r) w)))
    as [c'|]; [|done].
  exists c'. split; [done|]. apply (inj Some) in Hsame.
  by injection Hsame.
Qed.

Lemma removeComponent_leaves_registered_witness :
  let w := exec (ComponentEngine.addComponent Baz ;;
                 ComponentEngine.init one_foo) newEngine in
  distinct_keys w
  /\ #"Baz" ≠ ComponentEngine.object_Object
  /\ exists c c',
       obj_get #"Baz" (components w) = Some c
       /\ obj_get #"Baz"
            (components
               (exec (ComponentEngine.removeComponent (ByName #"Baz")) w))
          = Some c'
       /\ elements c' = Some [7].
Proof.
  intros w.
  assert (distinct_keys w) as Hdistinct by apply NoDup_singleton.
  assert (#"Baz" ≠ ComponentEngine.object_Object) as Hne by discriminate.
  split; [exact Hdistinct|]. split; [exact Hne|].
  destruct (removeComponent_leaves_registered (ByName #"Baz") w #"Baz" _
              Hdistinct Hne eq_refl) as (c' & Hc' & _ & Hels).
  eexists _, c'. split; [reflexivity|]. split; [exact Hc'|exact Hels].
Defined.








(** X8.  On an initialized engine a dispatch calls the listeners of the
    event in the order in which they were added, a listener that was just
    added last, and changes nothing but the trace. *)
Theorem dispatchEvent_in_order
    (w : ComponentEngine) (event : Key) (l : Listener) (data : Value) :
  initialized w = true ->
  ComponentEngine.dispatchEvent event data w
  = (Return tt,
     set_trace
       (trace w
        ++ map (fun l => Listen l data)
             (default [] (eventListeners w !! event))) w)
  /\ trace (exec (ComponentEngine.addEventListener event l ;;
                  ComponentEngine.dispatchEvent event data) w)
     = trace w
       ++ map (fun l => Listen l data) (default [] (eventListeners w !! event))
       ++ [Listen l data].
Proof.
  intros Hinit. split; [by apply dispatchEvent_initialized|].
  unfold exec.
  rewrite (bind_return _ _ w
             (set_eventListeners
                (<[event := default [] (eventListeners w !! event) ++ [l]]>
                   (eventListeners w)) w) tt) by done.
  rewrite dispatchEvent_initialized by done. simpl. unfold delivery. simpl.
  rewrite lookup_insert_eq.
  change (default [] (Some ?x)) with x. by rewrite map_app.
Qed.

Lemma dispatchEvent_in_order_witness :
  let w := set_initialized true two_listeners in
  initialized w = true
  /\ trace (exec (ComponentEngine.addEventListener #"e" 3 ;;
                  ComponentEngine.dispatchEvent #"e" VUndefined) w)
     = [Listen 1 VUndefined; Listen 2 VUndefined; Listen 3 VUndefined].
Proof.
  intros w. split; [reflexivity|].
  destruct (dispatchEvent_in_order w #"e" 3 VUndefined eq_refl) as [_ H].
  rewrite H. reflexivity.
Defined.

(** ** More on [init] *)




Lemma installs_nothing_bind {A B} (m : M A) (f : A -> M B) :
  installs_nothing m -> (forall a, installs_nothing (f a)) ->
  installs_nothing (m ≫= f).
Proof.
  intros Hm Hf w. unfold mbind, M_bind. specialize (Hm w).
  destruct (m w) as [[a|msg] w1]; simpl in *; [|done].
  by rewrite Hf.
Qed.

Lemma installs_nothing_for_each {A} (f : A -> M unit) (l : list A) :
  (forall x, installs_nothing (f x)) -> installs_nothing (for_each f l).
Proof.
  intros Hf. induction l as [|x l IH]; simpl; [done|].
  by apply installs_nothing_bind.
Qed.

Lemma installs_nothing_returns {A} (m : M A) (a : A) (life : list Effect) :
  returns m a life -> installs_nothing m.
Proof.
  intros Hm w. destruct (Hm w) as (w' & E & Hev). rewrite E. apply Hev.
Qed.

Lemma installs_nothing_init_component (jq : Query) (k : Key) :
  installs_nothing (ComponentEngine.init_component jq k).
Proof.
  intros w. unfold ComponentEngine.init_component.
  change ((get ≫= ?f) w) with (f w w). cbv beta.
  destruct (obj_get k (components w)) as [c|]; [|done].
  destruct (if ComponentEngine.truthy (selector c)
            then Component.tryToSetElements jq c else (c, true))
    as [c1 found].
  apply installs_nothing_bind; [done|]. intros _.
  destruct found; [|done].
  apply installs_nothing_bind;
    [eapply installs_nothing_returns, returns_call_guard|].
  intros [|]; [|done].
  apply installs_nothing_bind;
    [eapply installs_nothing_returns, returns_initComponent|].
  by intros c2.
Qed.

(** X10.  Every call of [init] returns and installs the action handler
    once more, also on an engine that is initialized already. *)
Theorem init_installs_handler_again (jq : Query) (w : ComponentEngine) :
  outcome (ComponentEngine.init jq) w = Return tt
  /\ handlers (exec (ComponentEngine.init jq) w) = S (handlers w)
  /\ handlers (exec (ComponentEngine.init jq ;; ComponentEngine.init jq) w)
     = S (S (handlers w)).
Proof.
  assert (forall w,
             exists w1,
               ComponentEngine.init jq w
               = (Return tt,
                  set_handlers (S (handlers w1))
                    (set_deferredEvents []
                       (set_trace
                          (trace w1
                           ++ flat_map (delivery w1) (deferredEvents w1))
                          (set_initialized true w1))))
               /\ handlers w1 = handlers w) as Hinit.
  { clear w. intros w.
    destruct (init_pass_queues jq (obj_keys (components w)) w)
      as (w1 & Epass & _).
    exists w1. split.
    - unfold ComponentEngine.init.
      change ((get ≫= ?f) w) with (f w w). cbv beta.
      rewrite (bind_return _ _ _ _ _ Epass).
      change ((modify ?g ≫= ?f) w1) with (f tt (g w1)). cbv beta.
      change ((get ≫= ?f) ?x) with (f x x). cbv beta.
      by rewrite (bind_return _ _ _ _ _
                    (drain_queue (deferredEvents w1)
                       (set_initialized true w1) eq_refl)).
    - pose proof (installs_nothing_for_each
                    (ComponentEngine.init_component jq)
                    (obj_keys (components w))
                    (installs_nothing_init_component jq) w) as H.
      by rewrite Epass in H. }
  destruct (Hinit w) as (w1 & E1 & H1).
  split; [unfold outcome; by rewrite E1|].
  split; [unfold exec; rewrite E1; simpl; by rewrite H1|].
  unfold exec. rewrite (bind_return _ _ _ _ _ E1).
  destruct (Hinit (set_handlers (S (handlers w1))
                     (set_deferredEvents []
                        (set_trace
                           (trace w1
                            ++ flat_map (delivery w1) (deferredEvents w1))
                           (set_initialized true w1))))) as (w2 & E2 & H2).
  rewrite E2. simpl. rewrite H2. simpl. by rewrite H1.
Qed.

(** ** More on the Application variant *)

Section ApplicationMore.
Import Application ApplicationSpec.

Lemma init_from_initialized (jq : Query) (todo seen : list Component.t)
    (app : Application) :
  initialized (init_from jq seen todo app).2 = initialized app.
Proof.
  revert seen app. induction todo as [|c todo IH]; intros seen app; simpl;
    [done|].
  destruct (Component._prepare jq c) as [c'|msg]; [|done].
  destruct (Component._shouldInitialize c'); by rewrite IH.
Qed.

Lemma app_steps_initialized (ops : list AppOp) (app : Application) :
  initialized app = false -> initialized (app_steps ops app) = false.
Proof.
  revert app. induction ops as [|op ops IH]; intros app Happ; simpl; [done|].
  apply IH. destruct op as [jq|jq c|]; simpl.
  - unfold init. by rewrite init_from_initialized.
  - unfold addComponent. by rewrite Happ.
  - done.
Qed.

(** X11.  No call of [init], [addComponent] or [reset] sets
    [initialized]: after any sequence of them on a new application it is
    false, so [addComponent] never prepares or initializes the component
    that it is given and only puts it in [uninitComponents], also after
    [init]. *)
Theorem application_never_initialized
    (ops : list AppOp) (jq : Query) (c : Component.t) :
  let app := app_steps ops newApplication in
  initialized app = false
  /\ addComponent jq c app
     = (Return tt,
        mkApplication (components app) (uninitComponents app ++ [c])
          (inactiveComponents app) false (trace app)).
Proof.
  intros app.
  assert (initialized app = false) as Hinit
    by (by apply app_steps_initialized).
  split; [exact Hinit|]. unfold addComponent. by rewrite Hinit.
Qed.

(** X12.  [getComponent] of the Application returns undefined when
    there is no component, and the first component of the name when
    there is one; when there are components and none has the name, it
    throws instead of returning undefined, because the loop has no
    bound. *)
Theorem application_getComponent_unbounded (name : string) (app : Application) :
  (components app = [] -> getComponent name app = Return None)
  /\ (forall c,
        List.find (fun c => String.eqb (Component.name c) name)
                  (components app) = Some c ->
        getComponent name app = Return (Some c))
  /\ (components app ≠ [] ->
      List.find (fun c => String.eqb (Component.name c) name)
                (components app) = None ->
      exists msg, getComponent name app = Throw msg).
Proof.
  assert (forall cs,
             getComponent_from name cs
             = match List.find (fun c => String.eqb (Component.name c) name) cs with
               | Some c => Return (Some c)
               | None => Throw "TypeError: components[iComp] is undefined"
               end) as Hfrom.
  { induction cs as [|c cs IH]; simpl; [done|].
    by destruct (String.eqb (Component.name c) name). }
  unfold getComponent. split; [|split].
  - by intros ->.
  - intros c Hfind. destruct (components app) as [|c1 cs] eqn:E; [done|].
    by rewrite Hfrom, Hfind.
  - intros Hne Hfind. destruct (components app) as [|c1 cs] eqn:E; [done|].
    rewrite Hfrom, Hfind. by eexists.
Qed.

Lemma application_getComponent_witness :
  let tabs := Component.mk "Tabs" (Some ".tabs") true (Some 2)
                (Some [7]) true true in
  let app := mkApplication [tabs] [] [] false [] in
  components app ≠ []
  /\ List.find (fun c => String.eqb (Component.name c) "Menu") (components app)
     = None
  /\ (exists msg, getComponent "Menu" app = Throw msg)
  /\ getComponent "Tabs" app = Return (Some tabs)
  /\ getComponent "Menu" newApplication = Return None.
Proof.
  intros tabs app.
  destruct (application_getComponent_unbounded "Menu" app) as (_ & _ & H).
  destruct (application_getComponent_unbounded "Tabs" app) as (_ & H' & _).
  destruct (application_getComponent_unbounded "Menu" newApplication)
    as (H'' & _ & _).
  assert (components app ≠ []) as Hne by discriminate.
  split; [exact Hne|]. split; [reflexivity|].
  split; [by apply H|]. split; [by apply H'|by apply H''].
Defined.

Lemma declares_selector_reset (c : Component.t) :
  declares_selector (Component._reset c) = declares_selector c.
Proof. done. Qed.

(** X13.  [reset] followed by [init]: when the components that were
    initialized or inactive all declare a selector, [init] returns and
    goes through all of them again, reset, in the order of the two
    arrays; the components that were waiting in [uninitComponents] at the
    time of [reset] are not among them. *)
Theorem application_reset_then_init (jq : Query) (app : Application) :
  Forall (fun c => declares_selector c = true)
         (components app ++ inactiveComponents app) ->
  uninitComponents (reset app)
  = map Component._reset (components app ++ inactiveComponents app)
  /\ init jq (reset app)
     = (Return tt,
        after_pass jq
          (map Component._reset (components app ++ inactiveComponents app))
          [] (reset app)).
Proof.
  intros Hall. split; [done|]. unfold init. simpl.
  apply init_from_declared. apply Forall_fmap.
  eapply Forall_impl; [exact Hall|]. intros c Hc. simpl.
  by rewrite declares_selector_reset.
Qed.

Lemma application_reset_then_init_witness :
  let tabs := Component.mk "Tabs" (Some ".foo") true (Some 2)
                (Some [7]) true true in
  let app := mkApplication [tabs] [no_sel] [refused] false [] in
  Forall (fun c => declares_selector c = true)
         (components app ++ inactiveComponents app)
  /\ init one_foo (reset app)
     = (Return tt,
        mkApplication [tabs] [] [refused] false
          [Init 2; Console Log "Component Tabs initialized."]).
Proof.
  intros tabs app.
  assert (Forall (fun c => declares_selector c = true)
                 (components app ++ inactiveComponents app)) as Hall
    by (by repeat constructor).
  split; [exact Hall|].
  destruct (application_reset_then_init one_foo app Hall) as [_ H].
  rewrite H. reflexivity.
Defined.
End ApplicationMore.

(** ** ObservableMixin *)

(** X14.  [off] of a callback that is not registered for the event
    changes nothing; [off] of a callback that is registered removes its
    first occurrence and nothing else, so [on] and then [off] of a
    callback that was not registered leaves the callbacks of the event as
    they were. *)
Theorem off_is_guarded
    (cbs : gmap Key (list Callback)) (event : Key) (callback : Callback) :
  (callback ∉ default [] (cbs !! event) ->
   ObservableMixin.off event callback cbs = cbs)
  /\ (forall pre post,
        cbs !! event = Some (pre ++ callback :: post) ->
        callback ∉ pre ->
        ObservableMixin.off event callback cbs
        = <[event := pre ++ post]> cbs)
  /\ (callback ∉ default [] (cbs !! event) ->
      ObservableMixin.off event callback
        (ObservableMixin.on event callback cbs) !! event
      = Some (default [] (cbs !! event))).
Proof.
  assert (forall pre post,
             callback ∉ pre ->
             (-1 <? indexOf (pre ++ callback :: post) callback)%Z = true
             /\ splice (indexOf (pre ++ callback :: post) callback) 1
                  (pre ++ callback :: post) = pre ++ post) as Hfirst.
  { intros pre post Hpre. unfold indexOf.
    rewrite indexOf_from_first, Z.add_0_l by done.
    split; [apply Z.ltb_lt; lia|apply splice_middle]. }
  split; [|split].
  - intros Habsent. unfold ObservableMixin.off.
    destruct (cbs !! event) as [l|]; [|done]. simpl in Habsent.
    by rewrite (indexOf_absent _ _ Habsent).
  - intros pre post Hget Hpre. unfold ObservableMixin.off. rewrite Hget.
    destruct (Hfirst pre post Hpre) as [-> ->]. done.
  - intros Habsent. unfold ObservableMixin.off, ObservableMixin.on.
    rewrite lookup_insert_eq.
    destruct (Hfirst (default [] (cbs !! event)) [] Habsent) as [-> ->].
    by rewrite lookup_insert_eq, app_nil_r.
Qed.

Lemma off_is_guarded_witness :
  let cbs := ObservableMixin.on #"open" 1 ObservableMixin._initEvents in
  (2 ∉ default [] (cbs !! #"open"))
  /\ ObservableMixin.off #"open" 2 cbs = cbs
  /\ ObservableMixin.off #"open" 2 (ObservableMixin.on #"open" 2 cbs) !! #"open"
     = Some [1].
Proof.
  intros cbs.
  assert (2 ∉ default [] (cbs !! #"open")) as Habsent.
  { change (2 ∉ [1]). absent. }
  destruct (off_is_guarded cbs #"open" 2) as (H1 & _ & H3).
  split; [exact Habsent|]. split; [by apply H1|]. by apply H3.
Defined.

(** X15.  [trigger] calls the callbacks that the object has for the
    event, in the order in which [on] added them, and then those of its
    parents, from the nearest on; the callbacks of other events are not
    called. *)
Theorem trigger_bubbles
    (event other : Key) (data : Value) (callback : Callback)
    (this : gmap Key (list Callback))
    (parents : list (gmap Key (list Callback))) :
  ObservableMixin.trigger event data
    (ObservableMixin.on event callback this :: parents)
  = map (fun cb => (cb, data)) (default [] (this !! event))
    ++ [(callback, data)]
    ++ ObservableMixin.trigger event data parents
  /\ (other ≠ event ->
      ObservableMixin.trigger event data
        (ObservableMixin.on other callback this :: parents)
      = ObservableMixin.trigger event data (this :: parents)).
Proof.
  split.
  - simpl. unfold ObservableMixin.on. rewrite lookup_insert_eq.
    change (default [] (Some ?x)) with x.
    by rewrite map_app, <- app_assoc.
  - intros Hne. simpl. unfold ObservableMixin.on.
    by rewrite lookup_insert_ne.
Qed.

Lemma trigger_bubbles_witness :
  let component := ObservableMixin.on #"open" 1 ObservableMixin._initEvents in
  let app := ObservableMixin.on #"open" 9 ObservableMixin._initEvents in
  #"close" ≠ #"open"
  /\ ObservableMixin.trigger #"open" VUndefined
       [ObservableMixin.on #"close" 2 component; app]
     = [(1, VUndefined); (9, VUndefined)].
Proof.
  intros component app.
  assert (#"close" ≠ #"open") as Hne by discriminate.
  split; [exact Hne|].
  destruct (trigger_bubbles #"open" #"close" VUndefined 2 component [app])
    as [_ H].
  rewrite (H Hne). reflexivity.
Defined.
